(** * UBI + tax policy sandbox: the policy-to-outcome calculation of [app.py]

    The script is a straight-line computation over a four-row table.  Python
    [float]s and the [float64] columns of the data frame are IEEE 754 binary64
    numbers; they are modelled by Rocq's primitive binary64 [float], whose
    operations round to nearest, ties to even, exactly as the hardware the
    script runs on.  Python [int]s are unbounded and are modelled by [Z]; so
    are the [int64] columns, which hold the counts and the incomes of the
    table, far inside the 64-bit range.  A data frame is a list of rows; the
    columns the script adds step by step are the fields of three nested row
    records. *)

From Stdlib Require Import ZArith List String Bool Floats QArith Qround Lia.
From Stdlib Require Import Sorted Permutation.
Import ListNotations.

Set Warnings "-inexact-float".

Local Open Scope string_scope.
Local Open Scope Z_scope.

(** ** Exceptions and the error monad *)

Inductive error : Type :=
| ValueError
| OverflowError
| KeyError (column : string)
| IndexError.

Definition res (A : Type) : Type := (error + A)%type.

Definition ret {A : Type} (a : A) : res A := inr a.

Definition bind {A B : Type} (c : res A) (k : A -> res B) : res B :=
  match c with
  | inl e => inl e
  | inr a => k a
  end.

Notation "x <- c ;; k" := (bind c (fun x => k))
  (at level 61, c at next level, right associativity).

Fixpoint mapM {A B : Type} (f : A -> res B) (l : list A) : res (list B) :=
  match l with
  | [] => ret []
  | a :: t => b <- f a ;; bs <- mapM f t ;; ret (b :: bs)
  end.

(** ** Conversions between Python [int] and [float] *)

(** The binary64 number nearest to an integer, ties to even (exact for every
    integer below [2^53] in magnitude).  It is the cast NumPy applies to an
    [int64] column in arithmetic with a [float64] one, which raises nothing
    (every 64-bit integer is far inside the range of binary64), and the
    value of Python's own conversion whenever that returns. *)
Definition float_of_Z (n : Z) : float :=
  SF2Prim (binary_normalize prec emax n 0 false).

(** Python's conversion of an [int] is defined as long as the nearest
    binary64 number is a finite one; from [2^1024 - 2^970] on in magnitude
    the rounding overflows. *)
Definition in_float_range (n : Z) : bool :=
  match binary_normalize prec emax n 0 false with
  | S754_infinity _ => false
  | _ => true
  end.

(** [float(n)], also the implicit conversion of a Python [int] operand in
    arithmetic with a [float]: [OverflowError] ("int too large to convert to
    float") out of the range. *)
Definition float_of_int (n : Z) : res float :=
  if in_float_range n then ret (float_of_Z n) else inl OverflowError.

(** [int(x)]: truncation toward zero; Python raises [ValueError] on a NaN and
    [OverflowError] on an infinity. *)
Definition int_of_SF (x : spec_float) : res Z :=
  match x with
  | S754_nan => inl ValueError
  | S754_infinity _ => inl OverflowError
  | S754_zero _ => ret 0
  | S754_finite s m e => ret (cond_Zopp s (Z.shiftl (Zpos m) e))
  end.

Definition int (x : float) : res Z := int_of_SF (Prim2SF x).

(** The rational number a finite binary64 value stands for (0 for the three
    special values, which no statement below evaluates it on). *)
Definition Q_of_SF (x : spec_float) : Q :=
  match x with
  | S754_finite s m e =>
      match e with
      | Z0 => inject_Z (cond_Zopp s (Zpos m))
      | Zpos k => inject_Z (cond_Zopp s (Zpos m) * 2 ^ Zpos k)
      | Zneg k => Qmake (cond_Zopp s (Zpos m)) (2 ^ k)
      end
  | _ => 0%Q
  end.

Definition Q_of_float (x : float) : Q := Q_of_SF (Prim2SF x).

(** ** 1. The toy economy *)

Module Group.
Record t : Type := mk
  { name : string;
    pop_share : float;
    avg_income : Z;
    mpc : float }.
End Group.

Definition INCOME_GROUPS : list Group.t :=
  [ Group.mk "Low"          0.30%float 20000  0.95%float;
    Group.mk "Lower-Middle" 0.40%float 40000  0.85%float;
    Group.mk "Upper-Middle" 0.20%float 80000  0.75%float;
    Group.mk "High"         0.10%float 200000 0.60%float ].

Definition TOTAL_POP : Z := 100000.

(** ** 2. The policy levers *)

(** The rates are the fractions the script computes from the sliders (the
    percentage divided by 100); [ubi_monthly] is the integer the amount
    slider returns. *)
Record policy : Type := mkPolicy
  { vat_rate : float;
    luxury_tax_rate : float;
    income_tax_rate : float;
    ubi_monthly : Z;
    ubi_target : string }.

(** ** 3. The population table *)

Record pop_row : Type := mkPopRow
  { group : string;
    group_pop : Z;
    avg_income : Z;
    mpc : float;
    basic_cons : float;
    luxury_cons : float }.

(** The [if]/[elif] chain on the group's name; every other name falls into
    the [else] branch. *)
Definition consumption_shares (name : string) : float * float :=
  if (name =? "Low")%string then (0.98, 0.02)%float
  else if (name =? "Lower-Middle")%string then (0.95, 0.05)%float
  else if (name =? "Upper-Middle")%string then (0.90, 0.10)%float
  else (0.80, 0.20)%float.

(** One pass of the loop over [INCOME_GROUPS].  Both products have an [int]
    on the left and a [float] on the right, and Python converts the [int]
    first.  (The loop also keeps a running [cumulative_pop] that nothing
    reads; it is left out.) *)
Definition build_row (g : Group.t) : res pop_row :=
  total_pop <- float_of_int TOTAL_POP ;;
  group_pop <- int (total_pop * Group.pop_share g)%float ;;
  let income := Group.avg_income g in
  let mpc := Group.mpc g in
  income_as_float <- float_of_int income ;;
  let consumption := (income_as_float * mpc)%float in
  let '(basic_share, luxury_share) := consumption_shares (Group.name g) in
  ret {| group := Group.name g;
         group_pop := group_pop;
         avg_income := income;
         mpc := mpc;
         basic_cons := (consumption * basic_share)%float;
         luxury_cons := (consumption * luxury_share)%float |}.

Definition build_rows (groups : list Group.t) : res (list pop_row) :=
  mapM build_row groups.

(** ** 4. Tax calculations *)

Record tax_row : Type := mkTaxRow
  { base :> pop_row;
    vat_tax_per_person : float;
    lux_tax_per_person : float;
    income_tax_per_person : float;
    total_tax_per_person : float;
    total_tax_group : float }.

Definition tax_columns (p : policy) (r : pop_row) : tax_row :=
  let vat := (vat_rate p * (basic_cons r + luxury_cons r))%float in
  let lux := (luxury_tax_rate p * luxury_cons r)%float in
  let inc := (income_tax_rate p * float_of_Z (avg_income r))%float in
  let tot := (vat + lux + inc)%float in
  {| base := r;
     vat_tax_per_person := vat;
     lux_tax_per_person := lux;
     income_tax_per_person := inc;
     total_tax_per_person := tot;
     total_tax_group := (tot * float_of_Z (group_pop r))%float |}.

(** [Series.sum()] of a [float64] column.  The default is [skipna=True]:
    pandas puts [0.0] in the place of every NaN of the column and hands the
    result to NumPy, which adds the elements one after the other, in row
    order (it only sums pairwise from eight elements on).  Whether the
    running sum starts at [0.0] or at [-0.0] shows in the sign of a zero
    result only. *)
Definition series_sum (xs : list float) : float :=
  fold_left PrimFloat.add
    (map (fun x => if is_nan x then 0%float else x) xs) 0%float.

Definition sum_Z (xs : list Z) : Z := fold_right Z.add 0 xs.

(** ** 5. UBI allocation *)

(** [sort_values("avg_income")]: the rows in ascending order of income.  The
    call leaves the sorting algorithm at its default, which is not a stable
    one: the source does not fix the order in which rows of the same income
    come out.  The insertion below fixes one; where the incomes differ from
    row to row, as they do in [INCOME_GROUPS], the ascending order is the
    only one there is, whatever the algorithm. *)
Fixpoint insert_row (r : tax_row) (l : list tax_row) : list tax_row :=
  match l with
  | [] => [r]
  | h :: t =>
      if avg_income r <=? avg_income h then r :: l else h :: insert_row r t
  end.

Definition sort_values (df : list tax_row) : list tax_row :=
  fold_right insert_row [] df.

(** The branch of the [if]/[elif] chain that fills the [ubi_eligible] column
    from [cum_pop_share].  There is no [else]: for any other target the
    column is never created. *)
Definition ubi_eligible_rule (target : string) : option (float -> bool) :=
  if (target =? "Everyone")%string then Some (fun _ => true)
  else if (target =? "Bottom 50% income")%string
       then Some (fun share => (share <=? 0.50)%float)
  else if (target =? "Bottom 20% income")%string
       then Some (fun share => (share <=? 0.20)%float)
  else None.

Record ubi_row : Type := mkUbiRow
  { taxed :> tax_row;
    cum_pop : Z;
    cum_pop_share : float;
    ubi_eligible : bool;
    ubi_per_person : float;
    disposable_income_per_person : float }.

(** The columns of sections 5 and 6, row by row over the sorted frame;
    [acc] is the running total of [cumsum] before the row.  [cum_pop] and
    [avg_income] are [int64] columns, cast by NumPy.  The annual amount is a
    Python [int], converted for the rows that are eligible.  The run comes
    here after the balance has converted the cost, [ubi_recipients] times
    that amount, so that the amount of an eligible row is in the range of
    [float] and the conversion returns the nearest number
    ([eligible_amount_in_range] below). *)
Fixpoint ubi_columns (rule : float -> bool) (ubi_annual_per_person : Z)
    (acc : Z) (df : list tax_row) : list ubi_row :=
  match df with
  | [] => []
  | r :: t =>
      let cum := acc + group_pop r in
      let share := (float_of_Z cum / float_of_Z TOTAL_POP)%float in
      let eligible := rule share in
      let ubi :=
        if eligible then float_of_Z ubi_annual_per_person else 0%float in
      {| taxed := r;
         cum_pop := cum;
         cum_pop_share := share;
         ubi_eligible := eligible;
         ubi_per_person := ubi;
         disposable_income_per_person :=
           (float_of_Z (avg_income r)
            - income_tax_per_person r
            - vat_tax_per_person r
            - lux_tax_per_person r
            + ubi)%float |}
      :: ubi_columns rule ubi_annual_per_person cum t
  end.

(** ** 6. The whole run *)

Record outcome : Type := mkOutcome
  { df : list ubi_row;
    total_tax_revenue : float;
    ubi_recipients : Z;
    ubi_annual_per_person : Z;
    total_ubi_cost : Z;
    budget_surplus : float;
    inequality_ratio : float }.

Definition recipients (df : list ubi_row) : Z :=
  sum_Z (map (fun r : ubi_row => group_pop r) (filter ubi_eligible df)).

Definition ratio (df : list ubi_row) : res float :=
  match df with
  | [] => inl IndexError
  | first :: _ =>
      let low_disp := disposable_income_per_person first in
      let high_disp := disposable_income_per_person (last df first) in
      ret (if (0 <? low_disp)%float then (high_disp / low_disp)%float else nan)
  end.

Definition simulate (p : policy) : res outcome :=
  rows <- build_rows INCOME_GROUPS ;;
  let df := map (tax_columns p) rows in
  let total_tax_revenue :=
    series_sum (map total_tax_group df) in
  let df := sort_values df in
  match ubi_eligible_rule (ubi_target p) with
  | None => inl (KeyError "ubi_eligible")
  | Some rule =>
      let ubi_annual_per_person := ubi_monthly p * 12 in
      let df := ubi_columns rule ubi_annual_per_person 0 df in
      let ubi_recipients := recipients df in
      let total_ubi_cost := ubi_recipients * ubi_annual_per_person in
      cost_as_float <- float_of_int total_ubi_cost ;;
      let budget_surplus := (total_tax_revenue - cost_as_float)%float in
      inequality_ratio <- ratio df ;;
      ret {| df := df;
             total_tax_revenue := total_tax_revenue;
             ubi_recipients := ubi_recipients;
             ubi_annual_per_person := ubi_annual_per_person;
             total_ubi_cost := total_ubi_cost;
             budget_surplus := budget_surplus;
             inequality_ratio := inequality_ratio |}
  end.

(** ** 7. Display results *)

(** The [delta] of the budget metric before it is formatted to one decimal:
    the balance as a percentage of the revenue, and [None] when the revenue
    is not above zero. *)
Definition budget_delta (r : outcome) : option float :=
  if (0 <? total_tax_revenue r)%float
  then Some (budget_surplus r / total_tax_revenue r * 100)%float
  else None.

(** * The vocabulary of the properties *)

(** ** Policies the statements are read on *)

Definition default_policy : policy :=
  mkPolicy 0.10%float 0.10%float 0.15%float 800 "Everyone".



Definition huge_amount_policy : policy :=
  mkPolicy 0.10%float 0.10%float 0.15%float (10 ^ 400) "Everyone".

Definition with_vat_rate (p : policy) (rate : float) : policy :=
  {| vat_rate := rate;
     luxury_tax_rate := luxury_tax_rate p;
     income_tax_rate := income_tax_rate p;
     ubi_monthly := ubi_monthly p;
     ubi_target := ubi_target p |}.

Definition with_luxury_tax_rate (p : policy) (rate : float) : policy :=
  {| vat_rate := vat_rate p;
     luxury_tax_rate := rate;
     income_tax_rate := income_tax_rate p;
     ubi_monthly := ubi_monthly p;
     ubi_target := ubi_target p |}.

Definition with_income_tax_rate (p : policy) (rate : float) : policy :=
  {| vat_rate := vat_rate p;
     luxury_tax_rate := luxury_tax_rate p;
     income_tax_rate := rate;
     ubi_monthly := ubi_monthly p;
     ubi_target := ubi_target p |}.

Definition with_ubi_monthly (p : policy) (amount : Z) : policy :=
  {| vat_rate := vat_rate p;
     luxury_tax_rate := luxury_tax_rate p;
     income_tax_rate := income_tax_rate p;
     ubi_monthly := amount;
     ubi_target := ubi_target p |}.

Definition with_ubi_target (p : policy) (target : string) : policy :=
  {| vat_rate := vat_rate p;
     luxury_tax_rate := luxury_tax_rate p;
     income_tax_rate := income_tax_rate p;
     ubi_monthly := ubi_monthly p;
     ubi_target := target |}.

Definition nan_vat_policy : policy := with_vat_rate default_policy nan.

(** ** Inputs *)

Definition valid_target (target : string) : Prop :=
  target = "Everyone" \/ target = "Bottom 50% income"
  \/ target = "Bottom 20% income".


(** The amount is one the run can pay to the whole population: twelve times
    the amount, times [TOTAL_POP], is in the range of [float].  The cost of
    the UBI, which is that of a part of the population, is then in the range
    under every target. *)
Definition amount_in_range (p : policy) : Prop :=
  in_float_range (TOTAL_POP * (ubi_monthly p * 12)) = true.


(** The run raises nothing: it comes to its end and yields an outcome. *)
Definition returns (p : policy) : Prop :=
  exists r : outcome, simulate p = inr r.

(** ** The reference table and the frames of a run *)

Definition reference_rows : list pop_row :=
  [ mkPopRow "Low"          30000 20000  0.95%float 18620%float  380%float;
    mkPopRow "Lower-Middle" 40000 40000  0.85%float 32300%float  1700%float;
    mkPopRow "Upper-Middle" 20000 80000  0.75%float 54000%float  6000%float;
    mkPopRow "High"         10000 200000 0.60%float 96000%float  24000%float ].

(** The shares of the table as the decimal fractions they are written as. *)
Definition decimal_pop_share : list Q :=
  [30 # 100; 40 # 100; 20 # 100; 10 # 100].

(** The frame after section 4, and after sections 5 and 6. *)
Definition taxed_frame (p : policy) : list tax_row :=
  map (tax_columns p) reference_rows.

Definition final_frame (p : policy) (rule : float -> bool) : list ubi_row :=
  ubi_columns rule (ubi_monthly p * 12) 0 (sort_values (taxed_frame p)).

(** The brackets of the frame: one row per income group. *)
Definition brackets_of (l : list ubi_row) : list (string * Z) :=
  map (fun row : ubi_row => (group row, avg_income row)) l.

Definition reference_brackets : list (string * Z) :=
  map (fun g => (Group.name g, Group.avg_income g)) INCOME_GROUPS.

Definition income_le (a b : pop_row) : Prop := avg_income a <= avg_income b.

Definition ascending {R : Type} (key : R -> pop_row) (l : list R) : Prop :=
  StronglySorted (fun a b => income_le (key a) (key b)) l.

(** What the row at position [i] of the allocated frame holds. *)
Definition row_spec (rule : float -> bool) (annual acc : Z)
    (out : list ubi_row) (i : nat) (row : ubi_row) : Prop :=
  cum_pop row
  = acc + sum_Z (map (fun r : ubi_row => group_pop r) (firstn (S i) out))
  /\ cum_pop_share row
     = (float_of_Z (cum_pop row) / float_of_Z TOTAL_POP)%float
  /\ ubi_eligible row = rule (cum_pop_share row)
  /\ ubi_per_person row
     = (if ubi_eligible row then float_of_Z annual else 0%float)
  /\ disposable_income_per_person row
     = (float_of_Z (avg_income row)
        - income_tax_per_person row
        - vat_tax_per_person row
        - lux_tax_per_person row
        + ubi_per_person row)%float.

(** The eligibility test each target applies to a bracket's cumulative
    population share. *)
Definition eligibility_of_target (target : string) (row : ubi_row) : Prop :=
  (target = "Everyone" -> ubi_eligible row = true)
  /\ (target = "Bottom 50% income" ->
      ubi_eligible row = (cum_pop_share row <=? 0.50)%float)
  /\ (target = "Bottom 20% income" ->
      ubi_eligible row = (cum_pop_share row <=? 0.20)%float).

(** The population of the rows a rule admits, read off the sorted frame. *)
Fixpoint eligible_pop (rule : float -> bool) (acc : Z) (l : list tax_row)
  : Z :=
  match l with
  | [] => 0
  | r :: t =>
      let cum := acc + group_pop r in
      (if rule (float_of_Z cum / float_of_Z TOTAL_POP)%float
       then group_pop r else 0)
      + eligible_pop rule cum t
  end.

Definition counts_nonneg (l : list tax_row) : Prop :=
  Forall (fun r : tax_row => 0 <= group_pop r) l.

(** ** Order on binary64 numbers *)

(** A number (no NaN) that is not below zero; [-0] and [+oo] count. *)
Definition nonneg (x : float) : Prop := (0 <=? x)%float = true.

(** A finite number above zero. *)
Definition positive_finite (c : float) : bool :=
  match Prim2SF c with
  | S754_finite false _ _ => true
  | _ => false
  end.

(** Rates that are numbers (no NaN) and not below zero. *)
Definition rates_nonneg (p : policy) : Prop :=
  nonneg (vat_rate p) /\ nonneg (luxury_tax_rate p)
  /\ nonneg (income_tax_rate p).

(** [p'] has the levers of [p] with no rate lowered. *)
Definition rates_le (p p' : policy) : Prop :=
  (vat_rate p <=? vat_rate p')%float = true
  /\ (luxury_tax_rate p <=? luxury_tax_rate p')%float = true
  /\ (income_tax_rate p <=? income_tax_rate p')%float = true.

(** The amounts a row's taxes are charged on are positive numbers. *)
Definition taxable (r : pop_row) : Prop :=
  positive_finite (basic_cons r + luxury_cons r)%float = true
  /\ positive_finite (luxury_cons r) = true
  /\ positive_finite (float_of_Z (avg_income r)) = true
  /\ positive_finite (float_of_Z (group_pop r)) = true.

(** Both runs return, and the revenue of the second is not below that of
    the first. *)
Definition revenue_not_lower (p p' : policy) : Prop :=
  exists r r' : outcome,
    simulate p = inr r /\ simulate p' = inr r'
    /\ (total_tax_revenue r <=? total_tax_revenue r')%float = true.

(** The tax a bracket brings in: its tax per person times its population. *)
Definition bracket_tax (row : tax_row) : float :=
  (total_tax_per_person row * float_of_Z (group_pop row))%float.

(** A term as a sum that skips NaN counts it. *)
Definition counted (x : float) : float :=
  if (x =? x)%float then x else 0%float.

(** The same binary64 value, the sign of a zero aside. *)
Definition same_number (x y : float) : Prop :=
  x = y \/ ((x =? 0)%float = true /\ (y =? 0)%float = true).

(** ** Rounding of binary64, after [SpecFloat] *)

(** The state of a right shift by [k] bits of [m0]: quotient, and the
    remainder as coded by the round and sticky bits. *)
Definition shr_state (m0 k : Z) (mrs : shr_record) : Prop :=
  exists rem : Z,
    m0 = shr_m mrs * 2 ^ k + rem
    /\ 0 <= rem < 2 ^ k
    /\ 0 <= shr_m mrs
    /\ (shr_r mrs = true <-> 2 ^ k <= 2 * rem)
    /\ (shr_s mrs = true <-> rem <> 0 /\ 2 * rem <> 2 ^ k).

(** Round to nearest, ties to even, of [q + rem / pw]. *)
Definition rne (q rem pw : Z) : Z :=
  if (pw <? 2 * rem) || ((pw =? 2 * rem) && Z.odd q) then q + 1 else q.

(** [2^53] and [2^52], the bounds of a normal mantissa. *)
Definition two53 : Z := 9007199254740992.

Definition two52 : Z := 4503599627370496.

(** The float a rounded mantissa [m'] at exponent [T] is packed into. *)
Definition pack (m' T : Z) : spec_float :=
  if m' =? 0 then S754_zero false
  else if m' =? two53
       then if T + 1 <=? 971
            then S754_finite false (Z.to_pos two52) (T + 1)
            else S754_infinity false
  else if T <=? 971 then S754_finite false (Z.to_pos m') T
       else S754_infinity false.

(** The exponent binary64 gives a number of the size of [m * 2^e]: 53
    significant bits, and no exponent below [-1074]. *)
Definition target_exp (m : positive) (e : Z) : Z :=
  fexp prec emax (Zpos (digits2_pos m) + e).

(** The mantissa of [m * 2^e] at that exponent, rounded to nearest, ties to
    even. *)
Definition rounded (m : positive) (e : Z) : Z :=
  let n := target_exp m e - e in
  rne (Zpos m / 2 ^ n) (Zpos m mod 2 ^ n) (2 ^ n).

(** The float the value [m * 2^e] rounds to (for [e] not above the exponent
    the format gives it). *)
Definition RND (m : positive) (e : Z) : spec_float :=
  pack (rounded m e) (target_exp m e).

(** The shape of a packed result: a zero, a positive number or [+oo]. *)
Definition nonneg_SF (x : spec_float) : bool :=
  match x with
  | S754_zero _ | S754_finite false _ _ | S754_infinity false => true
  | _ => false
  end.

(** Mantissa and exponent of a valid positive binary64 number. *)
Record canonical (m : positive) (e : Z) : Prop :=
  { can_target : target_exp m e = e;
    can_emin : -1074 <= e;
    can_emax : e <= 971;
    can_upper : Zpos m < two53;
    can_normal : -1074 < e -> two52 <= Zpos m }.

(** The value of a finite float in units of [2^-1074]. *)
Definition val (m : positive) (e : Z) : Z := Zpos m * 2 ^ (e + 1074).

(** The mantissa and the exponent are those of a binary64 number. *)
Definition valid_SF (x : spec_float) : Prop :=
  SpecFloat.valid_binary prec emax x = true.

(** ** Vocabulary of the further properties *)

(** No two rows of the frame have the same income. *)
Definition distinct_incomes (l : list tax_row) : Prop :=
  NoDup (map (fun r : tax_row => avg_income r) l).

(** The incomes grow from each row to the next. *)
Definition strictly_ascending (l : list tax_row) : Prop :=
  StronglySorted (fun a b : tax_row => avg_income a < avg_income b) l.

(** The levers of [p] with the two UBI levers replaced. *)
Definition with_ubi (p : policy) (amount : Z) (target : string) : policy :=
  with_ubi_target (with_ubi_monthly p amount) target.

(** [p] and [p'] differ in their tax rates at most. *)
Definition same_ubi_levers (p p' : policy) : Prop :=
  ubi_monthly p' = ubi_monthly p /\ ubi_target p' = ubi_target p.

(** The UBI columns of a frame, row by row. *)
Definition ubi_side (l : list ubi_row) : list (Z * float * bool * float) :=
  map (fun row : ubi_row =>
         (cum_pop row, cum_pop_share row, ubi_eligible row,
          ubi_per_person row)) l.

(** Every tax of a row is a number that is not below zero. *)
Definition taxes_nonneg (r : tax_row) : Prop :=
  nonneg (vat_tax_per_person r)
  /\ nonneg (lux_tax_per_person r)
  /\ nonneg (income_tax_per_person r)
  /\ nonneg (total_tax_per_person r)
  /\ nonneg (total_tax_group r).

(** No tax of the row is lower in [r'] than in [r]. *)
Definition taxes_le (r r' : tax_row) : Prop :=
  group r' = group r
  /\ (vat_tax_per_person r <=? vat_tax_per_person r')%float = true
  /\ (lux_tax_per_person r <=? lux_tax_per_person r')%float = true
  /\ (income_tax_per_person r <=? income_tax_per_person r')%float = true
  /\ (total_tax_per_person r <=? total_tax_per_person r')%float = true
  /\ (total_tax_group r <=? total_tax_group r')%float = true.

(** One of the three rates is a NaN. *)
Definition nan_rate (p : policy) : Prop :=
  vat_rate p = nan \/ luxury_tax_rate p = nan \/ income_tax_rate p = nan.

(** The product [int] is applied to in one pass of the loop. *)
Definition scaled_share (g : Group.t) : float :=
  (float_of_Z TOTAL_POP * Group.pop_share g)%float.

(** What a pass of the loop copies from the group into its row. *)
Definition row_of_group (g : Group.t) (row : pop_row) : Prop :=
  group row = Group.name g
  /\ avg_income row = Group.avg_income g
  /\ mpc row = Group.mpc g
  /\ int (scaled_share g) = inr (group_pop row).

(** The share product is a finite number. *)
Definition finite_share (g : Group.t) : Prop :=
  classify (scaled_share g) <> NaN
  /\ classify (scaled_share g) <> PInf
  /\ classify (scaled_share g) <> NInf.

(** The income of the group is in the range of [float]. *)
Definition income_in_range (g : Group.t) : Prop :=
  in_float_range (Group.avg_income g) = true.

(** * Binary64 arithmetic is monotone *)

Lemma fexp_binary64 (e : Z) : fexp prec emax e = Z.max (e - 53) (-1074).
Proof. reflexivity. Qed.

Lemma digits2_pos_bounds (m : positive) :
  2 ^ (Zpos (digits2_pos m) - 1) <= Zpos m < 2 ^ Zpos (digits2_pos m).
Proof.
  induction m as [m IH | m IH |]; cbn [digits2_pos].
  - rewrite Pos2Z.inj_succ.
    replace (Z.succ (Zpos (digits2_pos m)) - 1)
      with (Z.succ (Zpos (digits2_pos m) - 1)) by lia.
    rewrite !Z.pow_succ_r by lia. lia.
  - rewrite Pos2Z.inj_succ.
    replace (Z.succ (Zpos (digits2_pos m)) - 1)
      with (Z.succ (Zpos (digits2_pos m) - 1)) by lia.
    rewrite !Z.pow_succ_r by lia. lia.
  - cbn. lia.
Qed.

Lemma pow2_pos (k : Z) : 0 <= k -> 0 < 2 ^ k.
Proof. intros. apply Z.pow_pos_nonneg; lia. Qed.

(** iteration invariants *)
Lemma iter_pos_invariant {A : Type} (f : A -> A) (P : Z -> A -> Prop) :
  (forall k x, 0 <= k -> P k x -> P (k + 1) (f x)) ->
  forall (n : positive) (k : Z) (x : A),
    0 <= k -> P k x -> P (k + Zpos n) (SpecFloat.iter_pos f n x).
Proof.
  intros Hstep. induction n as [n IH | n IH |]; intros k x Hk HP;
    cbn [SpecFloat.iter_pos].
  - replace (k + Zpos n~1) with (k + 1 + Zpos n + Zpos n) by lia.
    apply IH; [lia |]. apply IH; [lia |]. apply Hstep; assumption.
  - replace (k + Zpos n~0) with (k + Zpos n + Zpos n) by lia.
    apply IH; [lia |]. apply IH; assumption.
  - apply Hstep; assumption.
Qed.

Lemma shr_1_state (m0 k : Z) (mrs : shr_record) :
  0 <= k -> shr_state m0 k mrs -> shr_state m0 (k + 1) (shr_1 mrs).
Proof.
  intros Hk (rem & Hm & Hrem & Hq & Hr & Hs).
  destruct mrs as [q r s]. cbn [shr_m shr_r shr_s] in *.
  assert (Hp := pow2_pos k Hk). unfold shr_state.
  rewrite Z.pow_add_r by lia. change (2 ^ 1) with 2.
  set (P := 2 ^ k) in *. clearbody P.
  assert (Hrs : orb r s = true <-> rem <> 0).
  { rewrite orb_true_iff. split.
    - intros [H | H]; [apply Hr in H | apply Hs in H]; lia.
    - intros H. destruct (Z_le_gt_dec P (2 * rem)) as [Hle | Hgt].
      + left. apply Hr. exact Hle.
      + right. apply Hs. lia. }
  destruct q as [| [q | q |] | q]; cbn [shr_1 shr_m shr_r shr_s]; try lia.
  - exists rem. rewrite Hrs. repeat split; try lia; try discriminate.
  - exists (rem + P). rewrite Hrs. repeat split; try lia.
  - exists rem. rewrite Hrs. repeat split; try lia; try discriminate.
  - exists (rem + P). rewrite Hrs. repeat split; try lia.
Qed.

Lemma shr_exact_state (m e n : Z) :
  0 <= m ->
  exists mrs : shr_record,
    shr (shr_record_of_loc m loc_Exact) e n = (mrs, e + Z.max n 0)
    /\ shr_state m (Z.max n 0) mrs.
Proof.
  intros Hm.
  assert (H0 : shr_state m 0 (Build_shr_record m false false)).
  { exists 0. cbn [shr_m shr_r shr_s]. change (2 ^ 0) with 1.
    repeat split; try lia; try discriminate. }
  destruct n as [| n | n]; cbn [shr shr_record_of_loc].
  - eexists. split; [f_equal; cbn; lia | exact H0].
  - eexists. split; [reflexivity |].
    change (Z.max (Zpos n) 0) with (0 + Zpos n).
    apply (iter_pos_invariant shr_1 (shr_state m)); [| lia | exact H0].
    intros k x Hk. apply shr_1_state. exact Hk.
  - eexists. split; [f_equal; cbn; lia | exact H0].
Qed.

Lemma round_nearest_even_state (m0 k : Z) (mrs : shr_record) :
  0 <= k -> shr_state m0 k mrs ->
  round_nearest_even (shr_m mrs) (loc_of_shr_record mrs)
  = rne (m0 / 2 ^ k) (m0 mod 2 ^ k) (2 ^ k).
Proof.
  intros Hk (rem & Hm & Hrem & Hq & Hr & Hs).
  assert (Hp := pow2_pos k Hk).
  assert (Hdiv : m0 / 2 ^ k = shr_m mrs).
  { symmetry. apply (Z.div_unique_pos m0 (2 ^ k) (shr_m mrs) rem); lia. }
  assert (Hmod : m0 mod 2 ^ k = rem).
  { symmetry. apply (Z.mod_unique_pos m0 (2 ^ k) (shr_m mrs) rem); lia. }
  rewrite Hdiv, Hmod. clear Hdiv Hmod. unfold rne.
  destruct mrs as [q r s]. cbn [shr_m shr_r shr_s loc_of_shr_record] in *.
  set (P := 2 ^ k) in *. clearbody P.
  destruct r, s; cbn [round_nearest_even].
  - assert (P < 2 * rem).
    { destruct Hr as [Hr _], Hs as [Hs _].
      specialize (Hr eq_refl). specialize (Hs eq_refl). lia. }
    destruct (Z.ltb_spec P (2 * rem)); [reflexivity | lia].
  - assert (P = 2 * rem).
    { destruct Hr as [Hr _]. specialize (Hr eq_refl).
      destruct (Z.eq_dec P (2 * rem)) as [He | Hne]; [exact He |].
      destruct Hs as [_ Hs]. assert (false = true) by (apply Hs; lia).
      discriminate. }
    destruct (Z.ltb_spec P (2 * rem)); [lia |].
    destruct (Z.eqb_spec P (2 * rem)); [| lia].
    rewrite <- Z.negb_odd. cbn [orb andb]. destruct (Z.odd q); reflexivity.
  - assert (2 * rem < P).
    { destruct (Z_lt_le_dec (2 * rem) P) as [Hlt | Hle]; [exact Hlt |].
      destruct Hr as [_ Hr]. specialize (Hr Hle). discriminate. }
    destruct (Z.ltb_spec P (2 * rem)); [lia |].
    destruct (Z.eqb_spec P (2 * rem)); [lia | reflexivity].
  - assert (rem = 0).
    { destruct (Z.eq_dec rem 0) as [He | Hne]; [exact He |].
      destruct (Z_lt_le_dec (2 * rem) P) as [Hlt | Hle].
      - destruct Hs as [_ Hs]. assert (false = true) by (apply Hs; lia).
        discriminate.
      - destruct Hr as [_ Hr]. specialize (Hr Hle). discriminate. }
    subst rem.
    destruct (Z.ltb_spec P (2 * 0)); [lia |].
    destruct (Z.eqb_spec P (2 * 0)); [lia | reflexivity].
Qed.

Lemma two53_pow : two53 = 2 ^ 53. Proof. reflexivity. Qed.
Lemma two52_pow : two52 = 2 ^ 52. Proof. reflexivity. Qed.

Lemma shr_no_shift (mrs : shr_record) (e n : Z) :
  n <= 0 -> shr mrs e n = (mrs, e).
Proof. destruct n; [reflexivity | lia | reflexivity]. Qed.

Lemma Zdigits2_small (m : Z) :
  0 <= m < two53 -> Zdigits2 m <= 53.
Proof.
  intros [H0 H1]. destruct m as [| p | p]; cbn [Zdigits2]; try lia.
  pose proof (digits2_pos_bounds p) as [Hlo _].
  rewrite two53_pow in H1.
  assert (2 ^ (Zpos (digits2_pos p) - 1) < 2 ^ 53) by lia.
  apply Z.pow_lt_mono_r_iff in H; lia.
Qed.

Lemma rne_bounds (q rem pw : Z) : q <= rne q rem pw <= q + 1.
Proof. unfold rne. destruct (_ || _); lia. Qed.

Lemma target_ge_emin (m : positive) (e : Z) : -1074 <= target_exp m e.
Proof. unfold target_exp. rewrite fexp_binary64. lia. Qed.

Lemma rounded_bounds (m : positive) (e : Z) :
  e <= target_exp m e ->
  0 <= rounded m e <= two53
  /\ (-1074 < target_exp m e -> two52 <= rounded m e).
Proof.
  intros Hal. unfold rounded.
  set (n := target_exp m e - e). assert (Hn : 0 <= n) by lia.
  pose proof (rne_bounds (Zpos m / 2 ^ n) (Zpos m mod 2 ^ n) (2 ^ n)) as Hr.
  pose proof (digits2_pos_bounds m) as [Hlo Hhi].
  pose proof (pow2_pos n Hn) as Hp.
  set (d := Zpos (digits2_pos m)) in *.
  assert (Hd : d - 53 <= n).
  { unfold n, target_exp. fold d. rewrite fexp_binary64. lia. }
  assert (Hq0 : 0 <= Zpos m / 2 ^ n) by (apply Z.div_pos; lia).
  assert (Hq1 : Zpos m / 2 ^ n < two53).
  { apply Z.div_lt_upper_bound; [exact Hp |].
    rewrite two53_pow, <- Z.pow_add_r by lia.
    eapply Z.lt_le_trans; [exact Hhi |].
    apply Z.pow_le_mono_r; lia. }
  split; [lia |].
  intros Hnorm.
  assert (Hn' : n = d - 53).
  { unfold n, target_exp in *. fold d in Hnorm |- *.
    rewrite fexp_binary64 in *. lia. }
  assert (two52 <= Zpos m / 2 ^ n); [| lia].
  apply Z.div_le_lower_bound; [exact Hp |].
  rewrite two52_pow, <- Z.pow_add_r by lia.
  replace (n + 52) with (d - 1) by lia. exact Hlo.
Qed.

Lemma binary_round_aux_exact (m : positive) (e : Z) :
  e <= target_exp m e ->
  binary_round_aux prec emax false (Zpos m) e loc_Exact
  = pack (rounded m e) (target_exp m e).
Proof.
  intros Hal.
  destruct (rounded_bounds m e Hal) as [[Hr0 Hr1] _].
  unfold binary_round_aux, shr_fexp. cbn [Zdigits2].
  fold (target_exp m e).
  destruct (shr_exact_state (Zpos m) e (target_exp m e - e))
    as (mrs & Hshr & Hst);
    [lia |].
  rewrite Hshr.
  replace (Z.max (target_exp m e - e) 0) with (target_exp m e - e) in * by lia.
  replace (e + (target_exp m e - e)) with (target_exp m e) by lia.
  rewrite (round_nearest_even_state (Zpos m) (target_exp m e - e) mrs);
    [| lia | exact Hst].
  fold (rounded m e).
  pose proof (target_ge_emin m e) as HT.
  set (T := target_exp m e) in *. set (m' := rounded m e) in *.
  clearbody T m'. clear Hshr Hst mrs Hal.
  unfold pack.
  destruct (Z.eqb_spec m' two53) as [-> | Hne].
  - (* carry into the next binade *)
    change (Zdigits2 two53) with 54. rewrite fexp_binary64.
    replace (Z.max (54 + T - 53) (-1074) - T) with 1 by lia.
    cbn [shr shr_record_of_loc SpecFloat.iter_pos shr_1 shr_m two53 Z.eqb].
    change (Z.to_pos two52) with 4503599627370496%positive.
    reflexivity.
  - assert (Hd : Zdigits2 m' <= 53) by (apply Zdigits2_small; lia).
    rewrite shr_no_shift by (rewrite fexp_binary64; lia).
    cbn [shr_record_of_loc shr_m].
    destruct m' as [| p | p]; [reflexivity | | lia].
    cbn [Z.eqb Z.to_pos]. reflexivity.
Qed.

(** Comparison of non-negative finite floats. *)
Lemma SFleb_finite_pos (p1 p2 : positive) (e1 e2 : Z) :
  SFleb (S754_finite false p1 e1) (S754_finite false p2 e2) = true
  <-> e1 < e2 \/ (e1 = e2 /\ Zpos p1 <= Zpos p2).
Proof.
  cbn [SFleb SFcompare].
  change (Pos.compare_cont Eq p1 p2) with (p1 ?= p2)%positive.
  destruct (Z.compare_spec e1 e2) as [He | He | He].
  - destruct (Pos.compare_spec p1 p2) as [Hp | Hp | Hp].
    + split; [intros _; right; split; [exact He | lia] | reflexivity].
    + split; [intros _; right; split; [exact He | lia] | reflexivity].
    + split; [intros H; discriminate H | intros [H | [_ H]]; lia].
  - split; [intros _; left; exact He | reflexivity].
  - split; [intros H; discriminate H | intros [H | [H _]]; lia].
Qed.

Lemma pack_nonneg (m' T : Z) : nonneg_SF (pack m' T) = true.
Proof.
  unfold pack.
  destruct (m' =? 0); [reflexivity |].
  destruct (m' =? two53).
  - destruct (T + 1 <=? 971); reflexivity.
  - destruct (T <=? 971); reflexivity.
Qed.

Lemma SFleb_zero_nonneg (s : bool) (x : spec_float) :
  nonneg_SF x = true -> SFleb (S754_zero s) x = true.
Proof. destruct x as [? | [|] | | [|] ? ?]; try discriminate; reflexivity. Qed.

Lemma SFleb_nonneg_inf (x : spec_float) :
  nonneg_SF x = true -> SFleb x (S754_infinity false) = true.
Proof. destruct x as [? | [|] | | [|] ? ?]; try discriminate; reflexivity. Qed.

Lemma pack_le (m1 T1 m2 T2 : Z) :
  0 <= m1 <= two53 -> 0 <= m2 <= two53 ->
  (T1 = T2 /\ m1 <= m2) \/ (T1 < T2 /\ two52 <= m2) ->
  SFleb (pack m1 T1) (pack m2 T2) = true.
Proof.
  intros H1 H2 Hcases.
  assert (H52 : 0 < two52 < two53) by (unfold two52, two53; lia).
  unfold pack at 1.
  destruct (Z.eqb_spec m1 0) as [-> | Hm1];
    [apply SFleb_zero_nonneg, pack_nonneg |].
  unfold pack.
  destruct (Z.eqb_spec m2 0) as [-> | Hm2]; [lia |].
  destruct (Z.eqb_spec m1 two53) as [-> | Hn1];
    destruct (Z.eqb_spec m2 two53) as [-> | Hn2];
    repeat match goal with
           | |- context [?a <=? ?b] => destruct (Z.leb_spec a b)
           end;
    try reflexivity; try lia;
    apply SFleb_finite_pos; rewrite ?Z2Pos.id by lia; lia.
Qed.

(** Rounding to nearest is monotone. *)
Lemma rne_scale (q rem pw c : Z) :
  0 < c -> rne q (rem * c) (pw * c) = rne q rem pw.
Proof.
  intros Hc. unfold rne.
  replace (pw * c <? 2 * (rem * c)) with (pw <? 2 * rem).
  2:{ destruct (Z.ltb_spec pw (2 * rem)), (Z.ltb_spec (pw * c) (2 * (rem * c)));
      try reflexivity; nia. }
  replace (pw * c =? 2 * (rem * c)) with (pw =? 2 * rem).
  2:{ destruct (Z.eqb_spec pw (2 * rem)), (Z.eqb_spec (pw * c) (2 * (rem * c)));
      try reflexivity; nia. }
  reflexivity.
Qed.

Lemma rne_mono (u1 u2 P : Z) :
  0 < P -> u1 <= u2 ->
  rne (u1 / P) (u1 mod P) P <= rne (u2 / P) (u2 mod P) P.
Proof.
  intros HP Hu.
  pose proof (Z.div_le_mono u1 u2 P HP Hu) as Hq.
  pose proof (rne_bounds (u1 / P) (u1 mod P) P) as B1.
  pose proof (rne_bounds (u2 / P) (u2 mod P) P) as B2.
  destruct (Z.eq_dec (u1 / P) (u2 / P)) as [Heq | Hne]; [| lia].
  assert (Hrem : u1 mod P <= u2 mod P).
  { rewrite !Z.mod_eq by lia. rewrite Heq. lia. }
  unfold rne. rewrite Heq.
  destruct (Z.ltb_spec P (2 * (u1 mod P))), (Z.ltb_spec P (2 * (u2 mod P)));
    destruct (Z.eqb_spec P (2 * (u1 mod P))), (Z.eqb_spec P (2 * (u2 mod P)));
    destruct (Z.odd (u2 / P)); cbn [orb andb]; lia.
Qed.

Lemma rounded_scaled (m : positive) (e k : Z) :
  k <= e -> e <= target_exp m e ->
  rounded m e
  = rne (Zpos m * 2 ^ (e - k) / 2 ^ (target_exp m e - k))
        ((Zpos m * 2 ^ (e - k)) mod 2 ^ (target_exp m e - k))
        (2 ^ (target_exp m e - k)).
Proof.
  intros Hk Hal. unfold rounded.
  set (n := target_exp m e - e).
  replace (target_exp m e - k) with (n + (e - k)) by lia.
  assert (Hc := pow2_pos (e - k) ltac:(lia)).
  assert (Hn := pow2_pos n ltac:(lia)).
  rewrite Z.pow_add_r by lia.
  rewrite Z.div_mul_cancel_r by lia.
  rewrite Z.mul_mod_distr_r by lia.
  symmetry. apply rne_scale. exact Hc.
Qed.

Lemma target_mono (m1 m2 : positive) (e1 e2 k : Z) :
  k <= e1 -> k <= e2 ->
  Zpos m1 * 2 ^ (e1 - k) <= Zpos m2 * 2 ^ (e2 - k) ->
  target_exp m1 e1 <= target_exp m2 e2.
Proof.
  intros Hk1 Hk2 Hle. unfold target_exp. rewrite !fexp_binary64.
  pose proof (digits2_pos_bounds m1) as [Hlo1 _].
  pose proof (digits2_pos_bounds m2) as [_ Hhi2].
  set (d1 := Zpos (digits2_pos m1)) in *.
  set (d2 := Zpos (digits2_pos m2)) in *.
  assert (Hd1 : 0 < d1) by (unfold d1; lia).
  assert (Hd2 : 0 < d2) by (unfold d2; lia).
  assert (H : 2 ^ (d1 - 1 + (e1 - k)) < 2 ^ (d2 + (e2 - k))).
  { rewrite !Z.pow_add_r by lia.
    assert (Hc1 := pow2_pos (e1 - k) ltac:(lia)).
    assert (Hc2 := pow2_pos (e2 - k) ltac:(lia)).
    nia. }
  apply Z.pow_lt_mono_r_iff in H; lia.
Qed.

Lemma RND_mono (m1 m2 : positive) (e1 e2 k : Z) :
  k <= e1 -> k <= e2 ->
  e1 <= target_exp m1 e1 -> e2 <= target_exp m2 e2 ->
  Zpos m1 * 2 ^ (e1 - k) <= Zpos m2 * 2 ^ (e2 - k) ->
  SFleb (RND m1 e1) (RND m2 e2) = true.
Proof.
  intros Hk1 Hk2 Hal1 Hal2 Hle. unfold RND.
  pose proof (target_mono m1 m2 e1 e2 k Hk1 Hk2 Hle) as HT.
  destruct (rounded_bounds m1 e1 Hal1) as [Hb1 _].
  destruct (rounded_bounds m2 e2 Hal2) as [Hb2 Hn2].
  pose proof (target_ge_emin m1 e1) as Hmin.
  apply pack_le; [exact Hb1 | exact Hb2 |].
  destruct (Z.eq_dec (target_exp m1 e1) (target_exp m2 e2)) as [Heq | Hne].
  - left. split; [exact Heq |].
    rewrite (rounded_scaled m1 e1 k Hk1 Hal1).
    rewrite (rounded_scaled m2 e2 k Hk2 Hal2).
    rewrite Heq. apply rne_mono; [apply pow2_pos; lia | exact Hle].
  - right. split; [lia | apply Hn2; lia].
Qed.

Lemma RND_nonneg (m : positive) (e : Z) : nonneg_SF (RND m e) = true.
Proof. apply pack_nonneg. Qed.

(** ** Valid positive floats *)

Lemma iter_xO_pow (m d : positive) :
  Zpos (Pos.iter xO m d) = Zpos m * 2 ^ Zpos d.
Proof.
  induction d as [| d IH] using Pos.peano_ind.
  - cbn [Pos.iter]. lia.
  - rewrite Pos.iter_succ, Pos2Z.inj_xO, IH, Pos2Z.inj_succ, Z.pow_succ_r
      by lia.
    lia.
Qed.

Lemma digits_unique (m : positive) (d : Z) :
  2 ^ (d - 1) <= Zpos m < 2 ^ d -> 0 < d -> Zpos (digits2_pos m) = d.
Proof.
  intros [Hlo Hhi] Hd.
  pose proof (digits2_pos_bounds m) as [Hlo' Hhi'].
  assert (H1 : 2 ^ (d - 1) < 2 ^ Zpos (digits2_pos m)) by lia.
  assert (H2 : 2 ^ (Zpos (digits2_pos m) - 1) < 2 ^ d) by lia.
  apply Z.pow_lt_mono_r_iff in H1; [| lia | lia].
  apply Z.pow_lt_mono_r_iff in H2; lia.
Qed.

Lemma digits_shift (m m' : positive) (j : Z) :
  0 <= j -> Zpos m' = Zpos m * 2 ^ j ->
  Zpos (digits2_pos m') = Zpos (digits2_pos m) + j.
Proof.
  intros Hj Heq. apply digits_unique; [| lia].
  pose proof (digits2_pos_bounds m) as [Hlo Hhi].
  pose proof (pow2_pos j Hj) as Hp.
  rewrite Heq.
  replace (Zpos (digits2_pos m) + j - 1) with (Zpos (digits2_pos m) - 1 + j)
    by lia.
  rewrite !Z.pow_add_r by lia. nia.
Qed.

Lemma valid_canonical (m : positive) (e : Z) :
  SpecFloat.valid_binary prec emax (S754_finite false m e) = true ->
  canonical m e.
Proof.
  cbn [SpecFloat.valid_binary]. unfold bounded, canonical_mantissa.
  rewrite andb_true_iff, Z.eqb_eq, Z.leb_le. fold (target_exp m e).
  change (emax - prec) with 971. intros [Ht He].
  pose proof (digits2_pos_bounds m) as [Hlo Hhi].
  pose proof Ht as Ht'. unfold target_exp in Ht'. rewrite fexp_binary64 in Ht'.
  set (d := Zpos (digits2_pos m)) in *.
  assert (Hd : 0 < d) by (unfold d; lia).
  split; try lia.
  - rewrite two53_pow. eapply Z.lt_le_trans; [exact Hhi |].
    apply Z.pow_le_mono_r; lia.
  - intros Hn. rewrite two52_pow.
    replace 52 with (d - 1) by lia. exact Hlo.
Qed.

Lemma RND_canonical (m : positive) (e : Z) :
  canonical m e -> RND m e = S754_finite false m e.
Proof.
  intros [Ht Hmin Hmax Hup Hnorm]. unfold RND, rounded. rewrite Ht.
  replace (e - e) with 0 by lia. change (2 ^ 0) with 1.
  rewrite Z.div_1_r, Z.mod_1_r. unfold rne.
  change (1 <? 2 * 0) with false. change (1 =? 2 * 0) with false.
  cbn [orb andb]. unfold pack.
  destruct (Z.eqb_spec (Zpos m) 0); [lia |].
  destruct (Z.eqb_spec (Zpos m) two53); [lia |].
  destruct (Z.leb_spec e 971); [reflexivity | lia].
Qed.

(** The order of two canonical floats is the order of their values. *)
Lemma canonical_le_value (m1 m2 : positive) (e1 e2 k : Z) :
  canonical m1 e1 -> canonical m2 e2 -> k <= e1 -> k <= e2 ->
  SFleb (S754_finite false m1 e1) (S754_finite false m2 e2) = true ->
  Zpos m1 * 2 ^ (e1 - k) <= Zpos m2 * 2 ^ (e2 - k).
Proof.
  intros C1 C2 Hk1 Hk2 Hle. apply SFleb_finite_pos in Hle.
  destruct Hle as [Hlt | [-> Hm]].
  - pose proof (can_upper _ _ C1) as Hup.
    pose proof (can_normal _ _ C2) as Hn.
    pose proof (can_emin _ _ C1) as Hmin.
    assert (H52 : two52 <= Zpos m2) by (apply Hn; lia).
    assert (Hp1 := pow2_pos (e1 - k) ltac:(lia)).
    replace (e2 - k) with ((e2 - e1 - 1) + 1 + (e1 - k)) by lia.
    rewrite !Z.pow_add_r by lia.
    assert (Hp2 := pow2_pos (e2 - e1 - 1) ltac:(lia)).
    change (2 ^ 1) with 2.
    assert (H53 : two53 = 2 * two52) by reflexivity.
    set (P1 := 2 ^ (e1 - k)) in *. set (P2 := 2 ^ (e2 - e1 - 1)) in *.
    clearbody P1 P2. rewrite H53 in Hup.
    set (t := two52) in *. clearbody t.
    apply Z.le_trans with (2 * t * P1); [nia |].
    apply Z.le_trans with (2 * Zpos m2 * P1); nia.
  - apply Z.mul_le_mono_nonneg_r; [| exact Hm].
    apply Z.lt_le_incl, pow2_pos. lia.
Qed.

Lemma val_pos (m : positive) (e : Z) : -1074 <= e -> 0 < val m e.
Proof. intros H. unfold val. pose proof (pow2_pos (e + 1074)). nia. Qed.

Lemma canonical_le_val (m1 m2 : positive) (e1 e2 : Z) :
  canonical m1 e1 -> canonical m2 e2 ->
  SFleb (S754_finite false m1 e1) (S754_finite false m2 e2) = true ->
  val m1 e1 <= val m2 e2.
Proof.
  intros C1 C2 H. unfold val.
  replace (e1 + 1074) with (e1 - -1074) by lia.
  replace (e2 + 1074) with (e2 - -1074) by lia.
  apply canonical_le_value; try assumption;
    [exact (can_emin _ _ C1) | exact (can_emin _ _ C2)].
Qed.

(** ** Multiplication *)

Lemma mul_aligned (m1 m2 : positive) (e1 e2 : Z) :
  canonical m1 e1 -> canonical m2 e2 ->
  e1 + e2 <= target_exp (m1 * m2) (e1 + e2).
Proof.
  intros [T1 _ _ _ _] [T2 _ _ _ _].
  unfold target_exp in *. rewrite fexp_binary64 in *.
  pose proof (digits2_pos_bounds m1) as [Hlo1 _].
  pose proof (digits2_pos_bounds m2) as [Hlo2 _].
  pose proof (digits2_pos_bounds (m1 * m2)) as [_ Hhi].
  set (d1 := Zpos (digits2_pos m1)) in *.
  set (d2 := Zpos (digits2_pos m2)) in *.
  set (d := Zpos (digits2_pos (m1 * m2))) in *.
  assert (Hd1 : 0 < d1) by (unfold d1; lia).
  assert (Hd2 : 0 < d2) by (unfold d2; lia).
  assert (Hd : d1 + d2 - 1 <= d).
  { assert (H : 2 ^ (d1 - 1 + (d2 - 1)) < 2 ^ d).
    { rewrite Z.pow_add_r by lia. rewrite Pos2Z.inj_mul in Hhi.
      assert (0 < 2 ^ (d1 - 1)) by (apply pow2_pos; lia).
      assert (0 < 2 ^ (d2 - 1)) by (apply pow2_pos; lia).
      nia. }
    apply Z.pow_lt_mono_r_iff in H; lia. }
  lia.
Qed.

Lemma SFmul_finite (m1 m2 : positive) (e1 e2 : Z) :
  canonical m1 e1 -> canonical m2 e2 ->
  SFmul prec emax (S754_finite false m1 e1) (S754_finite false m2 e2)
  = RND (m1 * m2) (e1 + e2).
Proof.
  intros C1 C2. cbn [SFmul xorb].
  apply binary_round_aux_exact, mul_aligned; assumption.
Qed.

Lemma SFmul_mono_finite (m1 m2 mc : positive) (e1 e2 ec : Z) :
  canonical m1 e1 -> canonical m2 e2 -> canonical mc ec ->
  SFleb (S754_finite false m1 e1) (S754_finite false m2 e2) = true ->
  SFleb (SFmul prec emax (S754_finite false m1 e1) (S754_finite false mc ec))
        (SFmul prec emax (S754_finite false m2 e2) (S754_finite false mc ec))
  = true.
Proof.
  intros C1 C2 Cc Hle. rewrite !SFmul_finite by assumption.
  pose proof (canonical_le_val _ _ _ _ C1 C2 Hle) as Hv. unfold val in Hv.
  pose proof (can_emin _ _ C1). pose proof (can_emin _ _ C2).
  pose proof (can_emin _ _ Cc).
  apply (RND_mono _ _ _ _ (-2148)); try lia;
    try (apply mul_aligned; assumption).
  replace (e1 + ec - -2148) with ((e1 + 1074) + (ec + 1074)) by lia.
  replace (e2 + ec - -2148) with ((e2 + 1074) + (ec + 1074)) by lia.
  rewrite (Z.pow_add_r 2 (e1 + 1074) (ec + 1074)),
    (Z.pow_add_r 2 (e2 + 1074) (ec + 1074)), !Pos2Z.inj_mul by lia.
  assert (0 < 2 ^ (ec + 1074)) by (apply pow2_pos; lia).
  set (P1 := 2 ^ (e1 + 1074)) in *. set (P2 := 2 ^ (e2 + 1074)) in *.
  set (Pc := 2 ^ (ec + 1074)) in *. clearbody P1 P2 Pc.
  replace (Zpos m1 * Zpos mc * (P1 * Pc))
    with ((Zpos m1 * P1) * (Zpos mc * Pc)) by ring.
  replace (Zpos m2 * Zpos mc * (P2 * Pc))
    with ((Zpos m2 * P2) * (Zpos mc * Pc)) by ring.
  apply Z.mul_le_mono_nonneg_r; [nia | exact Hv].
Qed.

(** ** Addition *)

Lemma shl_align_spec (m : positive) (e e' : Z) :
  snd (shl_align m e e') = Z.min e e'
  /\ Zpos (fst (shl_align m e e')) = Zpos m * 2 ^ (e - Z.min e e').
Proof.
  unfold shl_align. destruct (e' - e) as [| d | d] eqn:Hd; cbn [fst snd].
  - replace (Z.min e e') with e by lia. rewrite Z.sub_diag. split; lia.
  - replace (Z.min e e') with e by lia. rewrite Z.sub_diag. split; lia.
  - replace (Z.min e e') with e' by lia.
    replace (e - e') with (Zpos d) by lia.
    split; [reflexivity | apply iter_xO_pow].
Qed.

Lemma binary_round_spec (m : positive) (e : Z) :
  -1074 <= e ->
  exists (m' : positive) (e' : Z),
    -1074 <= e' /\ e' <= target_exp m' e' /\ val m' e' = val m e
    /\ binary_round prec emax false m e = RND m' e'.
Proof.
  intros He. unfold binary_round. fold (target_exp m e).
  destruct (shl_align_spec m e (target_exp m e)) as [Hsnd Hfst].
  destruct (shl_align m e (target_exp m e)) as [m' e'].
  cbn [fst snd] in *. rewrite <- Hsnd in Hfst.
  pose proof (target_ge_emin m e) as HT.
  assert (Hdig : Zpos (digits2_pos m') = Zpos (digits2_pos m) + (e - e'))
    by (apply digits_shift; [lia | exact Hfst]).
  assert (Htar : target_exp m' e' = target_exp m e).
  { unfold target_exp. rewrite Hdig. f_equal. lia. }
  exists m', e'. split; [lia |]. split; [lia |]. split.
  - unfold val. rewrite Hfst.
    replace (e + 1074) with ((e - e') + (e' + 1074)) by lia.
    rewrite (Z.pow_add_r 2 (e - e') (e' + 1074)) by lia. ring.
  - apply binary_round_aux_exact. lia.
Qed.

Lemma SFadd_finite (m1 m2 : positive) (e1 e2 : Z) :
  -1074 <= e1 -> -1074 <= e2 ->
  exists (m : positive) (e : Z),
    -1074 <= e /\ e <= target_exp m e /\ val m e = val m1 e1 + val m2 e2
    /\ SFadd prec emax (S754_finite false m1 e1) (S754_finite false m2 e2)
       = RND m e.
Proof.
  intros H1 H2. cbn [SFadd cond_Zopp].
  destruct (shl_align_spec m1 e1 (Z.min e1 e2)) as [_ Ha].
  destruct (shl_align_spec m2 e2 (Z.min e1 e2)) as [_ Hb].
  set (a := fst (shl_align m1 e1 (Z.min e1 e2))) in *.
  set (b := fst (shl_align m2 e2 (Z.min e1 e2))) in *.
  clearbody a b. cbn [Z.add binary_normalize].
  destruct (binary_round_spec (a + b) (Z.min e1 e2) ltac:(lia))
    as (m & e & He & Hal & Hval & Heq).
  exists m, e. split; [exact He |]. split; [exact Hal |].
  split; [| exact Heq].
  rewrite Hval. unfold val. rewrite Pos2Z.inj_add, Ha, Hb.
  replace (Z.min e1 (Z.min e1 e2)) with (Z.min e1 e2) by lia.
  replace (Z.min e2 (Z.min e1 e2)) with (Z.min e1 e2) by lia.
  replace (e1 + 1074) with ((e1 - Z.min e1 e2) + (Z.min e1 e2 + 1074)) by lia.
  replace (e2 + 1074) with ((e2 - Z.min e1 e2) + (Z.min e1 e2 + 1074)) by lia.
  rewrite (Z.pow_add_r 2 (e1 - Z.min e1 e2) (Z.min e1 e2 + 1074)),
    (Z.pow_add_r 2 (e2 - Z.min e1 e2) (Z.min e1 e2 + 1074)) by lia.
  ring.
Qed.

Lemma RND_le_val (m1 m2 : positive) (e1 e2 : Z) :
  -1074 <= e1 -> -1074 <= e2 ->
  e1 <= target_exp m1 e1 -> e2 <= target_exp m2 e2 ->
  val m1 e1 <= val m2 e2 ->
  SFleb (RND m1 e1) (RND m2 e2) = true.
Proof.
  intros H1 H2 A1 A2 Hv. apply (RND_mono _ _ _ _ (-1074)); assumption.
Qed.

Lemma SFleb_zero_iff (s : bool) (x : spec_float) :
  SFleb (S754_zero s) x = true <-> nonneg_SF x = true.
Proof.
  destruct x as [? | [|] | | [|] ? ?]; cbn; split; intros H;
    try reflexivity; try discriminate H.
Qed.

(** Facts on the finite floats in the context, for [lia]. *)
Ltac canonical_facts :=
  repeat match goal with
         | H : valid_SF (S754_finite false ?m ?e) |- _ =>
             let C := fresh "C" in
             pose proof (valid_canonical m e H) as C;
             pose proof (can_emin m e C);
             pose proof (can_target m e C);
             pose proof (val_pos m e (can_emin m e C));
             clear H
         end;
  repeat match goal with
         | H : SFleb (S754_finite false ?m1 ?e1) (S754_finite false ?m2 ?e2)
               = true,
           C1 : canonical ?m1 ?e1, C2 : canonical ?m2 ?e2 |- _ =>
             pose proof (canonical_le_val m1 m2 e1 e2 C1 C2 H); clear H
         end.

Ltac as_RND :=
  repeat match goal with
         | |- context [SFadd prec emax (S754_finite false ?m1 ?e1)
                         (S754_finite false ?m2 ?e2)] =>
             let m := fresh "m" in
             let e := fresh "e" in
             let He := fresh "He" in
             let Hal := fresh "Hal" in
             let Hval := fresh "Hval" in
             let Heq := fresh "Heq" in
             destruct (SFadd_finite m1 m2 e1 e2) as
               (m & e & He & Hal & Hval & Heq); [lia | lia |];
             rewrite Heq; clear Heq
         | |- context [SFmul prec emax (S754_finite false ?m1 ?e1)
                         (S754_finite false ?m2 ?e2)] =>
             rewrite (SFmul_finite m1 m2 e1 e2) by assumption
         end.

Ltac close_le :=
  first
    [ reflexivity
    | assumption
    | apply SFleb_nonneg_inf; first [reflexivity | apply RND_nonneg]
    | apply SFleb_zero_nonneg; first [reflexivity | apply RND_nonneg]
    | apply RND_le_val; lia
    | match goal with
      | C : canonical ?m ?e
        |- SFleb (S754_finite false ?m ?e) (RND _ _) = true =>
          rewrite <- (RND_canonical m e C); apply RND_le_val; lia
      | C1 : canonical ?m1 ?e1, C2 : canonical ?m2 ?e2
        |- SFleb (S754_finite false ?m1 ?e1) (S754_finite false ?m2 ?e2)
           = true =>
          rewrite <- (RND_canonical m1 e1 C1), <- (RND_canonical m2 e2 C2);
          apply RND_le_val; lia
      end ].

Lemma SFadd_nonneg (a b : spec_float) :
  valid_SF a -> valid_SF b -> nonneg_SF a = true -> nonneg_SF b = true ->
  nonneg_SF (SFadd prec emax a b) = true.
Proof.
  intros Va Vb Ha Hb.
  destruct a as [sa | [|] | | [|] ma ea]; try discriminate Ha;
    destruct b as [sb | [|] | | [|] mb eb]; try discriminate Hb;
    canonical_facts; as_RND; try reflexivity; try apply RND_nonneg.
  destruct sa, sb; reflexivity.
Qed.

Lemma SFadd_mono (a a' b b' : spec_float) :
  valid_SF a -> valid_SF a' -> valid_SF b -> valid_SF b' ->
  nonneg_SF a = true -> nonneg_SF b = true ->
  SFleb a a' = true -> SFleb b b' = true ->
  SFleb (SFadd prec emax a b) (SFadd prec emax a' b') = true.
Proof.
  intros Va Va' Vb Vb' Ha Hb Haa Hbb.
  destruct a as [sa | [|] | | [|] ma ea]; try discriminate Ha;
    destruct a' as [sa' | [|] | | [|] ma' ea'];
    try (cbn [SFleb SFcompare] in Haa; discriminate Haa);
    destruct b as [sb | [|] | | [|] mb eb]; try discriminate Hb;
    destruct b' as [sb' | [|] | | [|] mb' eb'];
    try (cbn [SFleb SFcompare] in Hbb; discriminate Hbb);
    canonical_facts; as_RND;
    repeat match goal with s : bool |- _ => destruct s end;
    cbn [SFadd]; close_le.
Qed.

Lemma SFmul_nonneg (x : spec_float) (mc : positive) (ec : Z) :
  valid_SF x -> valid_SF (S754_finite false mc ec) -> nonneg_SF x = true ->
  nonneg_SF (SFmul prec emax x (S754_finite false mc ec)) = true.
Proof.
  intros Vx Vc Hx.
  destruct x as [sx | [|] | | [|] mx ex]; try discriminate Hx;
    canonical_facts; as_RND; try apply RND_nonneg; try reflexivity.
Qed.

Lemma SFmul_mono (x y : spec_float) (mc : positive) (ec : Z) :
  valid_SF x -> valid_SF y -> valid_SF (S754_finite false mc ec) ->
  nonneg_SF x = true -> SFleb x y = true ->
  SFleb (SFmul prec emax x (S754_finite false mc ec))
        (SFmul prec emax y (S754_finite false mc ec)) = true.
Proof.
  intros Vx Vy Vc Hx Hxy.
  destruct x as [sx | [|] | | [|] mx ex]; try discriminate Hx;
    destruct y as [sy | [|] | | [|] my ey];
    try (cbn [SFleb SFcompare] in Hxy; discriminate Hxy).
  - destruct sx, sy; reflexivity.
  - destruct sx; reflexivity.
  - apply SFleb_zero_nonneg. apply SFmul_nonneg; [assumption | assumption |].
    reflexivity.
  - reflexivity.
  - apply SFleb_nonneg_inf.
    apply SFmul_nonneg; [assumption | assumption | reflexivity].
  - apply SFmul_mono_finite; try assumption; apply valid_canonical; assumption.
Qed.

Lemma SFleb_refl_nonneg (x : spec_float) :
  nonneg_SF x = true -> SFleb x x = true.
Proof.
  destruct x as [s | [|] | | [|] m e]; try discriminate; try reflexivity.
  intros _. apply SFleb_finite_pos. right. split; [reflexivity | lia].
Qed.

(** ** The same facts on primitive floats *)

Lemma nonneg_spec (x : float) : nonneg x <-> nonneg_SF (Prim2SF x) = true.
Proof.
  unfold nonneg. rewrite FloatAxioms.leb_spec.
  change (Prim2SF 0%float) with (S754_zero false). apply SFleb_zero_iff.
Qed.

Lemma Prim2SF_is_valid (x : float) : valid_SF (Prim2SF x).
Proof. apply Prim2SF_valid. Qed.

Lemma leb_refl_nonneg (x : float) : nonneg x -> (x <=? x)%float = true.
Proof.
  rewrite nonneg_spec, FloatAxioms.leb_spec. apply SFleb_refl_nonneg.
Qed.

Lemma mul_nonneg (x c : float) :
  nonneg x -> positive_finite c = true -> nonneg (x * c)%float.
Proof.
  rewrite !nonneg_spec, mul_spec. unfold positive_finite, SF64mul.
  pose proof (Prim2SF_is_valid x) as Vx.
  pose proof (Prim2SF_is_valid c) as Vc.
  destruct (Prim2SF c) as [? | ? | | [|] mc ec]; try discriminate.
  intros Hx _. apply SFmul_nonneg; assumption.
Qed.

Lemma mul_mono (x y c : float) :
  nonneg x -> (x <=? y)%float = true -> positive_finite c = true ->
  (x * c <=? y * c)%float = true.
Proof.
  rewrite nonneg_spec, !FloatAxioms.leb_spec, !mul_spec.
  unfold positive_finite, SF64mul.
  pose proof (Prim2SF_is_valid x) as Vx.
  pose proof (Prim2SF_is_valid y) as Vy.
  pose proof (Prim2SF_is_valid c) as Vc.
  destruct (Prim2SF c) as [? | ? | | [|] mc ec]; try discriminate.
  intros Hx Hxy _. apply SFmul_mono; assumption.
Qed.

Lemma add_nonneg (a b : float) :
  nonneg a -> nonneg b -> nonneg (a + b)%float.
Proof.
  rewrite !nonneg_spec, add_spec. unfold SF64add.
  apply SFadd_nonneg; apply Prim2SF_is_valid.
Qed.

Lemma add_mono (a a' b b' : float) :
  nonneg a -> nonneg b ->
  (a <=? a')%float = true -> (b <=? b')%float = true ->
  (a + b <=? a' + b')%float = true.
Proof.
  rewrite !nonneg_spec, !FloatAxioms.leb_spec, !add_spec. unfold SF64add.
  apply SFadd_mono; apply Prim2SF_is_valid.
Qed.

(** ** The range of [float] *)

Lemma binary_round_aux_sign (s : bool) (m e : Z) (l : location) :
  binary_round_aux prec emax s m e l
  = match binary_round_aux prec emax false m e l with
    | S754_zero _ => S754_zero s
    | S754_infinity _ => S754_infinity s
    | S754_finite _ m' e' => S754_finite s m' e'
    | S754_nan => S754_nan
    end.
Proof.
  unfold binary_round_aux.
  destruct (shr_fexp prec emax m e l) as [mrs' e'].
  destruct (shr_fexp prec emax _ e' loc_Exact) as [mrs'' e''].
  destruct (shr_m mrs'') as [| q | q]; [reflexivity | | reflexivity].
  destruct (e'' <=? emax - prec); reflexivity.
Qed.

Lemma in_float_range_sign (m : positive) :
  in_float_range (Zneg m) = in_float_range (Zpos m).
Proof.
  unfold in_float_range. cbn [binary_normalize]. unfold binary_round.
  destruct (shl_align m 0 _) as [mz ez].
  rewrite (binary_round_aux_sign true).
  destruct (binary_round_aux prec emax false (Zpos mz) ez loc_Exact);
    reflexivity.
Qed.

Lemma in_float_range_abs (n : Z) :
  in_float_range n = in_float_range (Z.abs n).
Proof. destruct n; [reflexivity | reflexivity | apply in_float_range_sign]. Qed.

Lemma in_float_range_pos_mono (m n : positive) :
  Zpos m <= Zpos n ->
  in_float_range (Zpos n) = true -> in_float_range (Zpos m) = true.
Proof.
  intros Hle. unfold in_float_range. cbn [binary_normalize].
  destruct (binary_round_spec m 0 ltac:(lia))
    as (m' & e' & He' & Ha' & Hv' & ->).
  destruct (binary_round_spec n 0 ltac:(lia))
    as (n' & f' & Hf' & Hb' & Hw' & ->).
  assert (Hval : val m' e' <= val n' f').
  { rewrite Hv', Hw'. unfold val.
    apply Z.mul_le_mono_nonneg_r; [apply Z.pow_nonneg; lia | exact Hle]. }
  pose proof (RND_le_val _ _ _ _ He' Hf' Ha' Hb' Hval) as Hleb.
  pose proof (RND_nonneg m' e') as Nm.
  pose proof (RND_nonneg n' f') as Nn.
  destruct (RND n' f') as [sn | sn | | sn pn en]; try discriminate;
    destruct (RND m' e') as [sm | [|] | | sm pm em];
    try reflexivity; try discriminate.
Qed.

(** An integer that is not larger in magnitude than one in the range is in
    the range. *)
Lemma in_float_range_mono (m n : Z) :
  Z.abs m <= Z.abs n ->
  in_float_range n = true -> in_float_range m = true.
Proof.
  rewrite (in_float_range_abs m), (in_float_range_abs n).
  destruct (Z.abs m) as [| a | a] eqn:Hm; [reflexivity | | lia].
  destruct (Z.abs n) as [| b | b] eqn:Hn; [lia | | lia].
  apply in_float_range_pos_mono.
Qed.

Lemma float_of_int_in_range (n : Z) :
  in_float_range n = true -> float_of_int n = inr (float_of_Z n).
Proof. unfold float_of_int. intros ->. reflexivity. Qed.

Lemma float_of_int_out_of_range (n : Z) :
  in_float_range n = false -> float_of_int n = inl OverflowError.
Proof. unfold float_of_int. intros ->. reflexivity. Qed.

Lemma float_of_int_raises (n : Z) (e : error) :
  float_of_int n = inl e -> in_float_range n = false /\ e = OverflowError.
Proof.
  unfold float_of_int. destruct (in_float_range n); [discriminate |].
  intros [= <-]. split; reflexivity.
Qed.

(** ** Numbers and NaN *)

Lemma SFcompare_refl (x : spec_float) :
  x <> S754_nan -> SFcompare x x = Some Eq.
Proof.
  destruct x as [s | [|] | | [|] m e]; intros H; try reflexivity;
    try contradiction; cbn [SFcompare]; rewrite Z.compare_refl;
    change (Pos.compare_cont Eq m m) with (m ?= m)%positive;
    rewrite Pos.compare_refl; reflexivity.
Qed.

Lemma is_nan_false (x : float) :
  is_nan x = false <-> Prim2SF x <> S754_nan.
Proof.
  unfold is_nan. rewrite negb_false_iff, FloatAxioms.eqb_spec. unfold SFeqb.
  split.
  - intros H Hn. rewrite Hn in H. discriminate H.
  - intros H. rewrite (SFcompare_refl _ H). reflexivity.
Qed.

Lemma leb_is_number (x y : float) :
  (x <=? y)%float = true -> is_nan x = false /\ is_nan y = false.
Proof.
  rewrite FloatAxioms.leb_spec, !is_nan_false. unfold SFleb.
  destruct (Prim2SF x) as [? | ? | | ? ? ?], (Prim2SF y) as [? | ? | | ? ? ?];
    intros H; try discriminate H; split; discriminate.
Qed.

Lemma nonneg_is_number (x : float) : nonneg x -> is_nan x = false.
Proof. intros H. apply (leb_is_number _ _ H). Qed.

Lemma skip_numbers (xs : list float) :
  Forall (fun x => is_nan x = false) xs ->
  map (fun x => if is_nan x then 0%float else x) xs = xs.
Proof.
  induction 1 as [| x xs Hx _ IH]; cbn [map]; [reflexivity |].
  rewrite Hx, IH. reflexivity.
Qed.

(** Over a column of numbers nothing is skipped. *)
Lemma series_sum_numbers (xs : list float) :
  Forall (fun x => is_nan x = false) xs ->
  series_sum xs = fold_left PrimFloat.add xs 0%float.
Proof.
  intros H. unfold series_sum. rewrite skip_numbers by exact H. reflexivity.
Qed.

(** Over a column of NaN everything is. *)
Lemma series_sum_all_nan (xs : list float) :
  Forall (fun x => x = nan) xs -> series_sum xs = 0%float.
Proof.
  unfold series_sum. induction 1 as [| x xs Hx _ IH]; [reflexivity |].
  cbn [map fold_left]. rewrite Hx.
  change (0 + (if is_nan nan then 0 else nan))%float with 0%float. exact IH.
Qed.

(** * Properties of the run *)

(** ** The reference table *)

Lemma build_rows_reference : build_rows INCOME_GROUPS = inr reference_rows.
Proof. vm_compute. reflexivity. Qed.

Lemma float_of_int_TOTAL_POP :
  float_of_int TOTAL_POP = inr (float_of_Z TOTAL_POP).
Proof. reflexivity. Qed.

Lemma rule_of_valid_target (target : string) :
  valid_target target <-> exists rule, ubi_eligible_rule target = Some rule.
Proof.
  unfold valid_target, ubi_eligible_rule. split.
  - intros [-> | [-> | ->]]; cbn; eauto.
  - intros [rule H].
    destruct (String.eqb_spec target "Everyone"); auto.
    destruct (String.eqb_spec target "Bottom 50% income"); auto.
    destruct (String.eqb_spec target "Bottom 20% income"); auto.
    discriminate.
Qed.

(** ** When the run returns *)

Lemma rule_cases (target : string) (rule : float -> bool) :
  ubi_eligible_rule target = Some rule ->
  rule = (fun _ => true)
  \/ rule = (fun share => (share <=? 0.50)%float)
  \/ rule = (fun share => (share <=? 0.20)%float).
Proof.
  unfold ubi_eligible_rule.
  destruct (target =? "Everyone")%string; [intros [= <-]; auto |].
  destruct (target =? "Bottom 50% income")%string; [intros [= <-]; auto |].
  destruct (target =? "Bottom 20% income")%string; [intros [= <-]; auto |].
  discriminate.
Qed.

(** The run returns as soon as the cost of the UBI is in the range of
    [float]. *)
Lemma simulate_run (p : policy) (rule : float -> bool) :
  ubi_eligible_rule (ubi_target p) = Some rule ->
  in_float_range (recipients (final_frame p rule) * (ubi_monthly p * 12))
  = true ->
  exists ratio_value,
    ratio (final_frame p rule) = inr ratio_value /\
    simulate p =
      inr {| df := final_frame p rule;
             total_tax_revenue :=
               series_sum (map total_tax_group (taxed_frame p));
             ubi_recipients := recipients (final_frame p rule);
             ubi_annual_per_person := ubi_monthly p * 12;
             total_ubi_cost :=
               recipients (final_frame p rule) * (ubi_monthly p * 12);
             budget_surplus :=
               (series_sum (map total_tax_group (taxed_frame p))
                - float_of_Z
                    (recipients (final_frame p rule) * (ubi_monthly p * 12)))
               %float;
             inequality_ratio := ratio_value |}.
Proof.
  intros Hrule Hcost. unfold simulate.
  rewrite build_rows_reference. cbn [bind]. rewrite Hrule.
  fold (taxed_frame p). fold (final_frame p rule).
  rewrite (float_of_int_in_range _ Hcost). cbn [bind].
  destruct (ratio (final_frame p rule)) as [e | v] eqn:Hratio.
  - discriminate Hratio.
  - exists v. split; reflexivity.
Qed.

(** And it stops at the balance when that cost is not. *)
Lemma simulate_overflow (p : policy) (rule : float -> bool) :
  ubi_eligible_rule (ubi_target p) = Some rule ->
  in_float_range (recipients (final_frame p rule) * (ubi_monthly p * 12))
  = false ->
  simulate p = inl OverflowError.
Proof.
  intros Hrule Hcost. unfold simulate.
  rewrite build_rows_reference. cbn [bind]. rewrite Hrule.
  fold (taxed_frame p). fold (final_frame p rule).
  rewrite (float_of_int_out_of_range _ Hcost). reflexivity.
Qed.

Lemma recipients_of_rule (p : policy) (target : string)
    (rule : float -> bool) :
  ubi_eligible_rule target = Some rule ->
  recipients (final_frame p rule) = 100000
  \/ recipients (final_frame p rule) = 30000
  \/ recipients (final_frame p rule) = 0.
Proof.
  intros Hrule.
  destruct (rule_cases _ _ Hrule) as [-> | [-> | ->]];
    [left | right; left | right; right]; reflexivity.
Qed.

Lemma recipients_same (p p' : policy) (target : string)
    (rule : float -> bool) :
  ubi_eligible_rule target = Some rule ->
  recipients (final_frame p' rule) = recipients (final_frame p rule).
Proof.
  intros Hrule.
  destruct (rule_cases _ _ Hrule) as [-> | [-> | ->]]; reflexivity.
Qed.

Lemma cost_in_range (p : policy) (rule : float -> bool) :
  ubi_eligible_rule (ubi_target p) = Some rule ->
  amount_in_range p ->
  in_float_range (recipients (final_frame p rule) * (ubi_monthly p * 12))
  = true.
Proof.
  intros Hrule Hrange. refine (in_float_range_mono _ _ _ Hrange).
  unfold TOTAL_POP.
  destruct (recipients_of_rule p _ _ Hrule) as [-> | [-> | ->]]; lia.
Qed.

Lemma returns_in_range (p : policy) (rule : float -> bool) :
  ubi_eligible_rule (ubi_target p) = Some rule ->
  amount_in_range p -> returns p.
Proof.
  intros Hrule Hrange.
  destruct (simulate_run p rule Hrule (cost_in_range p rule Hrule Hrange))
    as (v & _ & Hrun).
  eexists. exact Hrun.
Qed.

(** A run that returns has converted its cost. *)
Lemma simulate_returns (p : policy) (rule : float -> bool) :
  ubi_eligible_rule (ubi_target p) = Some rule ->
  returns p ->
  exists ratio_value,
    ratio (final_frame p rule) = inr ratio_value /\
    simulate p =
      inr {| df := final_frame p rule;
             total_tax_revenue :=
               series_sum (map total_tax_group (taxed_frame p));
             ubi_recipients := recipients (final_frame p rule);
             ubi_annual_per_person := ubi_monthly p * 12;
             total_ubi_cost :=
               recipients (final_frame p rule) * (ubi_monthly p * 12);
             budget_surplus :=
               (series_sum (map total_tax_group (taxed_frame p))
                - float_of_Z
                    (recipients (final_frame p rule) * (ubi_monthly p * 12)))
               %float;
             inequality_ratio := ratio_value |}.
Proof.
  intros Hrule [r Hr].
  destruct (in_float_range
              (recipients (final_frame p rule) * (ubi_monthly p * 12)))
    eqn:Hcost.
  - apply simulate_run; assumption.
  - rewrite (simulate_overflow p rule Hrule Hcost) in Hr. discriminate Hr.
Qed.

Lemma returns_cost_in_range (p : policy) (rule : float -> bool) :
  ubi_eligible_rule (ubi_target p) = Some rule ->
  returns p ->
  in_float_range (recipients (final_frame p rule) * (ubi_monthly p * 12))
  = true.
Proof.
  intros Hrule [r Hr].
  destruct (in_float_range
              (recipients (final_frame p rule) * (ubi_monthly p * 12)))
    eqn:Hcost; [reflexivity |].
  rewrite (simulate_overflow p rule Hrule Hcost) in Hr. discriminate Hr.
Qed.

(** The run returns or not by the UBI levers alone. *)
Lemma returns_same_levers (p p' : policy) (rule : float -> bool) :
  ubi_eligible_rule (ubi_target p) = Some rule ->
  ubi_monthly p' = ubi_monthly p -> ubi_target p' = ubi_target p ->
  returns p -> returns p'.
Proof.
  intros Hrule Hamount Htarget [r Hr].
  destruct (in_float_range
              (recipients (final_frame p rule) * (ubi_monthly p * 12)))
    eqn:Hcost.
  - destruct (simulate_run p' rule) as (v & _ & Hrun).
    + rewrite Htarget. exact Hrule.
    + rewrite Hamount, (recipients_same p p' _ rule Hrule). exact Hcost.
    + eexists. exact Hrun.
  - rewrite (simulate_overflow p rule Hrule Hcost) in Hr. discriminate Hr.
Qed.

Lemma amount_in_range_zero (p : policy) :
  ubi_monthly p = 0 -> amount_in_range p.
Proof. unfold amount_in_range. intros ->. reflexivity. Qed.


(** ** Sorting by income *)

Lemma insert_row_perm (r : tax_row) (l : list tax_row) :
  Permutation (r :: l) (insert_row r l).
Proof.
  induction l as [| h t IH]; cbn.
  - apply Permutation_refl.
  - destruct (avg_income r <=? avg_income h).
    + apply Permutation_refl.
    + eapply perm_trans; [apply perm_swap |].
      apply perm_skip, IH.
Qed.

Lemma sort_values_perm (l : list tax_row) : Permutation l (sort_values l).
Proof.
  induction l as [| r t IH]; cbn.
  - constructor.
  - eapply perm_trans; [apply perm_skip, IH | apply insert_row_perm].
Qed.

Lemma insert_row_ascending (r : tax_row) (l : list tax_row) :
  ascending base l -> ascending base (insert_row r l).
Proof.
  unfold ascending. induction 1 as [| h t Hs IH Hall]; cbn.
  - repeat constructor.
  - destruct (Z.leb_spec (avg_income r) (avg_income h)) as [Hle | Hgt].
    + constructor; [constructor; assumption |].
      constructor; [exact Hle |].
      eapply Forall_impl; [| exact Hall].
      unfold income_le. intros a Ha. lia.
    + constructor; [exact IH |].
      eapply Permutation_Forall; [apply insert_row_perm |].
      constructor; [unfold income_le; lia | exact Hall].
Qed.

Lemma sort_values_ascending (l : list tax_row) :
  ascending base (sort_values l).
Proof.
  induction l as [| r t IH]; cbn.
  - constructor.
  - apply insert_row_ascending, IH.
Qed.

(** ** The columns of the UBI allocation *)

Section UbiColumns.
Variable rule : float -> bool.
Variable annual : Z.

Lemma ubi_columns_taxed (l : list tax_row) (acc : Z) :
  map taxed (ubi_columns rule annual acc l) = l.
Proof.
  revert acc. induction l as [| r t IH]; intros acc; cbn;
    [reflexivity | now rewrite IH].
Qed.

Lemma ubi_columns_ascending (l : list tax_row) (acc : Z) :
  ascending base l ->
  ascending (fun r : ubi_row => base r) (ubi_columns rule annual acc l).
Proof.
  unfold ascending. intros Hs. revert acc.
  induction Hs as [| h t Hs IH Hall]; intros acc; cbn.
  - constructor.
  - constructor; [apply IH |].
    rewrite <- (ubi_columns_taxed t (acc + group_pop h)) in Hall.
    rewrite Forall_map in Hall. exact Hall.
Qed.

Lemma ubi_columns_nth (l : list tax_row) :
  forall (acc : Z) (i : nat) (row : ubi_row),
    nth_error (ubi_columns rule annual acc l) i = Some row ->
    row_spec rule annual acc (ubi_columns rule annual acc l) i row.
Proof.
  induction l as [| r t IH]; intros acc i row Hnth.
  - destruct i; discriminate Hnth.
  - destruct i as [| i].
    + cbn in Hnth. injection Hnth as <-.
      unfold row_spec, sum_Z. cbn. repeat split. lia.
    + cbn [ubi_columns nth_error] in Hnth.
      destruct (IH _ _ _ Hnth) as (Hcum & Hrest).
      split; [| exact Hrest].
      rewrite Hcum. cbn [ubi_columns]. unfold sum_Z.
      rewrite firstn_cons. cbn. lia.
Qed.
End UbiColumns.

(** Where the balance has converted the cost, the amount converts for every
    row that is eligible, to the number the row holds. *)
Lemma eligible_amount_in_range (p : policy) (rule : float -> bool)
    (row : ubi_row) :
  ubi_eligible_rule (ubi_target p) = Some rule ->
  in_float_range (recipients (final_frame p rule) * (ubi_monthly p * 12))
  = true ->
  In row (final_frame p rule) ->
  ubi_eligible row = true ->
  float_of_int (ubi_monthly p * 12) = inr (ubi_per_person row).
Proof.
  intros Hrule Hcost Hin Heligible.
  destruct (In_nth_error _ _ Hin) as [i Hnth].
  destruct (ubi_columns_nth _ _ _ _ _ _ Hnth) as (_ & _ & _ & Hubi & _).
  rewrite Heligible in Hubi. rewrite Hubi.
  apply float_of_int_in_range.
  refine (in_float_range_mono _ _ _ Hcost).
  destruct (rule_cases _ _ Hrule) as [-> | [-> | ->]].
  - assert (Hrec : recipients (final_frame p (fun _ => true)) = 100000)
      by reflexivity.
    rewrite Hrec. lia.
  - assert (Hrec : recipients
                     (final_frame p (fun share => (share <=? 0.50)%float))
                   = 30000) by reflexivity.
    rewrite Hrec. lia.
  - exfalso.
    assert (Hnone : Forall (fun x : ubi_row => ubi_eligible x = false)
                      (final_frame p (fun share => (share <=? 0.20)%float)))
      by (repeat (apply Forall_cons; [reflexivity |]); apply Forall_nil).
    rewrite Forall_forall in Hnone. rewrite (Hnone row Hin) in Heligible.
    discriminate Heligible.
Qed.

(** ** Eligibility, bracket by bracket *)

Lemma rule_eligibility (target : string) (rule : float -> bool)
    (row : ubi_row) :
  ubi_eligible_rule target = Some rule ->
  ubi_eligible row = rule (cum_pop_share row) ->
  eligibility_of_target target row.
Proof.
  intros Hrule Hrow. unfold eligibility_of_target.
  repeat split; intros ->; cbn in Hrule; injection Hrule as <-; exact Hrow.
Qed.

(** C1: for every policy input with one of the three targets, the run returns
    whenever the amount is one it can pay (beyond, the cost is out of the
    range of [float] and the run may stop at the balance); and whenever it
    returns it yields a frame with one row per bracket, sorted ascending by
    [avg_income]; the cumulative population share of a row is the running sum
    of [group_pop] through and including that row, divided by [TOTAL_POP];
    under "Everyone" every row is eligible, under "Bottom 50% income" a row
    is eligible iff its share is [<= 0.50], under "Bottom 20% income" iff it
    is [<= 0.20]; a bracket is in or out as a whole: its members receive the
    full annual amount or nothing, and the recipients are the sum of the
    whole [group_pop] of the eligible rows. *)
Theorem ubi_eligible_per_whole_bracket (p : policy) :
  valid_target (ubi_target p) ->
  (amount_in_range p -> returns p)
  /\ (returns p ->
      exists r : outcome,
        simulate p = inr r
        /\ Permutation (brackets_of (df r)) reference_brackets
        /\ ascending (fun row : ubi_row => base row) (df r)
        /\ (forall (i : nat) (row : ubi_row),
              nth_error (df r) i = Some row ->
              cum_pop row
              = sum_Z (map (fun x : ubi_row => group_pop x)
                         (firstn (S i) (df r)))
              /\ cum_pop_share row
                 = (float_of_Z (cum_pop row) / float_of_Z TOTAL_POP)%float
              /\ eligibility_of_target (ubi_target p) row
              /\ ubi_per_person row
                 = (if ubi_eligible row
                    then float_of_Z (ubi_monthly p * 12) else 0%float))
        /\ ubi_recipients r
           = sum_Z (map (fun x : ubi_row => group_pop x)
                      (filter ubi_eligible (df r)))).
Proof.
  intros Hvalid.
  destruct (proj1 (rule_of_valid_target _) Hvalid) as [rule Hrule].
  split; [intros Hrange; exact (returns_in_range p rule Hrule Hrange) |].
  intros Hret.
  destruct (simulate_returns p rule Hrule Hret) as (v & _ & Hrun).
  eexists. split; [exact Hrun |]. cbn [df ubi_recipients].
  split; [apply Permutation_refl |].
  split; [apply ubi_columns_ascending, sort_values_ascending |].
  split; [| reflexivity].
  intros i row Hnth.
  destruct (ubi_columns_nth _ _ _ _ _ _ Hnth)
    as (Hcum & Hshare & Hel & Hubi & _).
  split; [rewrite Hcum; apply Z.add_0_l |].
  split; [exact Hshare |].
  split; [eapply rule_eligibility; eassumption | exact Hubi].
Qed.

Lemma ubi_eligible_per_whole_bracket_witness :
  exists r : outcome,
    simulate default_policy = inr r
    /\ Permutation (brackets_of (df r)) reference_brackets
    /\ ascending (fun row : ubi_row => base row) (df r)
    /\ (forall (i : nat) (row : ubi_row),
          nth_error (df r) i = Some row ->
          cum_pop row
          = sum_Z (map (fun x : ubi_row => group_pop x) (firstn (S i) (df r)))
          /\ cum_pop_share row
             = (float_of_Z (cum_pop row) / float_of_Z TOTAL_POP)%float
          /\ eligibility_of_target (ubi_target default_policy) row
          /\ ubi_per_person row
             = (if ubi_eligible row
                then float_of_Z (ubi_monthly default_policy * 12)
                else 0%float))
    /\ ubi_recipients r
       = sum_Z (map (fun x : ubi_row => group_pop x)
                  (filter ubi_eligible (df r))).
Proof.
  destruct (ubi_eligible_per_whole_bracket default_policy) as [Hret Hrun];
    [left; reflexivity |].
  apply Hrun, Hret. reflexivity.
Defined.

(** ** Malformed input *)




(** ** Inequality ratio *)

Lemma ascending_head_least {R : Type} (key : R -> pop_row) (first : R)
    (rest : list R) (row : R) :
  ascending key (first :: rest) -> In row (first :: rest) ->
  avg_income (key first) <= avg_income (key row).
Proof.
  unfold ascending. intros Hs Hin. inversion Hs as [| a l Hl Hall]; subst.
  destruct Hin as [<- | Hin]; [lia |].
  rewrite Forall_forall in Hall. exact (Hall _ Hin).
Qed.

Lemma last_in_nonempty {R : Type} (a : R) (l : list R) (d : R) :
  In (last (a :: l) d) (a :: l).
Proof.
  revert a. induction l as [| b l IH]; intros a; [now left |].
  right. apply (IH b).
Qed.

Lemma ascending_last_greatest {R : Type} (key : R -> pop_row) (l : list R)
    (d row : R) :
  ascending key l -> In row l ->
  avg_income (key row) <= avg_income (key (last l d)).
Proof.
  unfold ascending. intros Hs. revert row.
  induction Hs as [| a l Hl IH Hall]; intros row Hin; [destruct Hin |].
  destruct l as [| b l'].
  - destruct Hin as [<- | []]. cbn. lia.
  - change (last (a :: b :: l') d) with (last (b :: l') d).
    destruct Hin as [<- | Hin]; [| apply IH, Hin].
    rewrite Forall_forall in Hall. apply Hall, last_in_nonempty.
Qed.

(** C3, as stated, fails: an error is thrown under "Everyone" with a monthly
    amount of [10^400].  The cost of the UBI is then too large an [int] to be
    converted to [float] where the balance subtracts it from the revenue; the
    run stops there with an [OverflowError], before it comes to the ratio. *)
Lemma huge_amount_raises :
  valid_target (ubi_target huge_amount_policy)
  /\ simulate huge_amount_policy = inl OverflowError.
Proof. split; [left; reflexivity | vm_compute; reflexivity]. Qed.

(** C3, amended: for every input with one of the three targets, the run
    returns whenever the amount is one it can pay; and whenever it returns,
    the rows are ordered ascending by [avg_income] and, with [low] the first
    row (lowest income) and [high] the last one (highest income), the ratio
    is [high]'s disposable income divided by [low]'s when [low]'s is strictly
    positive, and NaN otherwise. *)
Theorem inequality_ratio_or_nan (p : policy) :
  valid_target (ubi_target p) ->
  (amount_in_range p -> returns p)
  /\ (returns p ->
      exists (r : outcome) (low high : ubi_row) (rest : list ubi_row),
        simulate p = inr r
        /\ df r = low :: rest
        /\ last (df r) low = high
        /\ (forall row : ubi_row,
              In row (df r) ->
              avg_income low <= avg_income row <= avg_income high)
        /\ ((0 <? disposable_income_per_person low)%float = true ->
            inequality_ratio r
            = (disposable_income_per_person high
               / disposable_income_per_person low)%float)
        /\ ((0 <? disposable_income_per_person low)%float = false ->
            inequality_ratio r = nan)).
Proof.
  intros Hvalid.
  destruct (proj1 (rule_of_valid_target _) Hvalid) as [rule Hrule].
  split; [intros Hrange; exact (returns_in_range p rule Hrule Hrange) |].
  intros Hret.
  destruct (simulate_returns p rule Hrule Hret) as (v & Hratio & Hrun).
  assert (Hasc : ascending (fun row : ubi_row => base row)
                   (final_frame p rule))
    by apply ubi_columns_ascending, sort_values_ascending.
  destruct (final_frame p rule) as [| low rest] eqn:Hframe;
    [discriminate Hratio |].
  exists {| df := low :: rest;
            total_tax_revenue :=
              series_sum (map total_tax_group (taxed_frame p));
            ubi_recipients := recipients (low :: rest);
            ubi_annual_per_person := ubi_monthly p * 12;
            total_ubi_cost := recipients (low :: rest) * (ubi_monthly p * 12);
            budget_surplus :=
              (series_sum (map total_tax_group (taxed_frame p))
               - float_of_Z (recipients (low :: rest) * (ubi_monthly p * 12)))
              %float;
            inequality_ratio := v |}, low, (last (low :: rest) low), rest.
  split; [exact Hrun |]. cbn [df inequality_ratio].
  split; [reflexivity |]. split; [reflexivity |].
  split.
  - intros row Hin. split.
    + exact (ascending_head_least _ _ _ _ Hasc Hin).
    + exact (ascending_last_greatest _ _ low _ Hasc Hin).
  - unfold ratio in Hratio. injection Hratio as <-.
    split; intros ->; reflexivity.
Qed.

Lemma inequality_ratio_or_nan_witness :
  exists (r : outcome) (low high : ubi_row) (rest : list ubi_row),
    simulate default_policy = inr r
    /\ df r = low :: rest
    /\ last (df r) low = high
    /\ (forall row : ubi_row,
          In row (df r) ->
          avg_income low <= avg_income row <= avg_income high)
    /\ ((0 <? disposable_income_per_person low)%float = true ->
        inequality_ratio r
        = (disposable_income_per_person high
           / disposable_income_per_person low)%float)
    /\ ((0 <? disposable_income_per_person low)%float = false ->
        inequality_ratio r = nan).
Proof.
  destruct (inequality_ratio_or_nan default_policy) as [Hret Hrun];
    [left; reflexivity |].
  apply Hrun, Hret. reflexivity.
Defined.

(** ** The reference population under each target *)

(** C5: the table's population shares are 0.30, 0.40, 0.20, 0.10 in ascending
    income order; under "Bottom 20% income" the cumulative share of the
    lowest bracket is already 0.30, above 0.20, so no row is eligible, and
    whatever the monthly amount the recipients and the UBI cost are 0. *)
Theorem bottom_20_reaches_nobody (p : policy) :
  ubi_target p = "Bottom 20% income" ->
  exists (r : outcome) (low : ubi_row) (rest : list ubi_row),
    simulate p = inr r
    /\ map Group.pop_share INCOME_GROUPS
       = [0.30; 0.40; 0.20; 0.10]%float
    /\ df r = low :: rest
    /\ cum_pop_share low = 0.30%float
    /\ (0.20 <? cum_pop_share low)%float = true
    /\ Forall (fun row : ubi_row => ubi_eligible row = false) (df r)
    /\ ubi_recipients r = 0
    /\ total_ubi_cost r = 0.
Proof.
  intros Htarget.
  assert (Hrule : ubi_eligible_rule (ubi_target p)
                  = Some (fun share => (share <=? 0.20)%float))
    by (rewrite Htarget; reflexivity).
  destruct (simulate_run p _ Hrule eq_refl) as (v & _ & Hrun).
  eexists. eexists. eexists. split; [exact Hrun |].
  cbn [df ubi_recipients total_ubi_cost].
  split; [reflexivity |]. split; [reflexivity |].
  split; [reflexivity |]. split; [reflexivity |].
  split; [repeat constructor |]. split; reflexivity.
Qed.

Lemma bottom_20_reaches_nobody_witness :
  exists (r : outcome) (low : ubi_row) (rest : list ubi_row),
    simulate (mkPolicy 0.10 0.10 0.15 800 "Bottom 20% income")%float = inr r
    /\ map Group.pop_share INCOME_GROUPS
       = [0.30; 0.40; 0.20; 0.10]%float
    /\ df r = low :: rest
    /\ cum_pop_share low = 0.30%float
    /\ (0.20 <? cum_pop_share low)%float = true
    /\ Forall (fun row : ubi_row => ubi_eligible row = false) (df r)
    /\ ubi_recipients r = 0
    /\ total_ubi_cost r = 0.
Proof.
  apply (bottom_20_reaches_nobody
           (mkPolicy 0.10 0.10 0.15 800 "Bottom 20% income")%float).
  reflexivity.
Defined.

(** C8: under "Everyone", with the four brackets of the table and [TOTAL_POP
    = 100000], the run returns whenever the amount is one it can pay, and
    whenever it returns the recipients are the whole population. *)
Theorem everyone_reaches_total_pop (p : policy) :
  ubi_target p = "Everyone" ->
  (amount_in_range p -> returns p)
  /\ (returns p ->
      exists r : outcome,
        simulate p = inr r
        /\ List.length INCOME_GROUPS = 4%nat
        /\ List.length (df r) = 4%nat
        /\ TOTAL_POP = 100000
        /\ Forall (fun row : ubi_row => ubi_eligible row = true) (df r)
        /\ ubi_recipients r = TOTAL_POP).
Proof.
  intros Htarget.
  assert (Hrule : ubi_eligible_rule (ubi_target p) = Some (fun _ => true))
    by (rewrite Htarget; reflexivity).
  split; [intros Hrange; exact (returns_in_range p _ Hrule Hrange) |].
  intros Hret.
  destruct (simulate_returns p _ Hrule Hret) as (v & _ & Hrun).
  eexists. split; [exact Hrun |]. cbn [df ubi_recipients].
  split; [reflexivity |]. split; [reflexivity |]. split; [reflexivity |].
  split; [repeat constructor | reflexivity].
Qed.

Lemma everyone_reaches_total_pop_witness :
  exists r : outcome,
    simulate default_policy = inr r
    /\ List.length INCOME_GROUPS = 4%nat
    /\ List.length (df r) = 4%nat
    /\ TOTAL_POP = 100000
    /\ Forall (fun row : ubi_row => ubi_eligible row = true) (df r)
    /\ ubi_recipients r = TOTAL_POP.
Proof.
  destruct (everyone_reaches_total_pop default_policy) as [Hret Hrun];
    [reflexivity |].
  apply Hrun, Hret. reflexivity.
Defined.

(** ** Zero rates *)

Lemma eqb_zero (x : float) :
  (x =? 0)%float = true -> x = 0%float \/ x = (-0)%float.
Proof.
  rewrite FloatAxioms.eqb_spec. intros H. rewrite <- (SF2Prim_Prim2SF x).
  destruct (Prim2SF x) as [[|] | [|] | | [|] m e]; try discriminate H;
    [right | left]; reflexivity.
Qed.

(** C9: when the three rates are zero and the monthly amount is 0, the
    revenue is zero, the UBI cost is 0, and every bracket's disposable income
    equals its average income. *)
Theorem zero_rates_boundary (p : policy) :
  (vat_rate p =? 0)%float = true ->
  (luxury_tax_rate p =? 0)%float = true ->
  (income_tax_rate p =? 0)%float = true ->
  ubi_monthly p = 0 ->
  valid_target (ubi_target p) ->
  exists r : outcome,
    simulate p = inr r
    /\ (total_tax_revenue r =? 0)%float = true
    /\ total_ubi_cost r = 0
    /\ Forall (fun row : ubi_row =>
                 (disposable_income_per_person row
                  =? float_of_Z (avg_income row))%float = true)
         (df r).
Proof.
  destruct p as [vat lux inc amount target].
  cbn [vat_rate luxury_tax_rate income_tax_rate ubi_monthly ubi_target].
  intros Hvat Hlux Hinc -> Hvalid.
  destruct (eqb_zero _ Hvat) as [-> | ->];
    destruct (eqb_zero _ Hlux) as [-> | ->];
    destruct (eqb_zero _ Hinc) as [-> | ->];
    destruct Hvalid as [-> | [-> | ->]];
    (eexists; split; [vm_compute; reflexivity |];
     cbn [df total_tax_revenue total_ubi_cost];
     split; [reflexivity |]; split; [reflexivity |];
     repeat constructor).
Qed.

Lemma zero_rates_boundary_witness :
  exists r : outcome,
    simulate (mkPolicy 0 0 0 0 "Bottom 50% income") = inr r
    /\ (total_tax_revenue r =? 0)%float = true
    /\ total_ubi_cost r = 0
    /\ Forall (fun row : ubi_row =>
                 (disposable_income_per_person row
                  =? float_of_Z (avg_income row))%float = true)
         (df r).
Proof.
  apply (zero_rates_boundary (mkPolicy 0 0 0 0 "Bottom 50% income"));
    try reflexivity.
  right. left. reflexivity.
Defined.

(** ** Population counts *)

Lemma Qfloor_finite_pos (m : positive) (e : Z) :
  Qfloor (Q_of_SF (S754_finite false m e)) = Z.shiftl (Zpos m) e.
Proof.
  destruct e as [| k | k]; cbn [Q_of_SF cond_Zopp].
  - now rewrite Qfloor_Z.
  - rewrite Qfloor_Z, Z.shiftl_mul_pow2 by lia. reflexivity.
  - change (Z.shiftl (Zpos m) (Zneg k)) with (Z.shiftr (Zpos m) (Zpos k)).
    rewrite Z.shiftr_div_pow2 by lia. cbn [Qfloor].
    now rewrite Pos2Z.inj_pow.
Qed.

Lemma Qceiling_finite_neg (m : positive) (e : Z) :
  Qceiling (Q_of_SF (S754_finite true m e)) = - Z.shiftl (Zpos m) e.
Proof.
  unfold Qceiling. f_equal. rewrite <- Qfloor_finite_pos.
  apply Qfloor_comp.
  destruct e as [| k | k]; cbn [Q_of_SF cond_Zopp];
    unfold Qeq, Qopp, inject_Z; cbn [Qnum Qden]; ring.
Qed.

(** [int] truncates: it is the floor of a value that is not below zero and
    the ceiling of a value that is not above. *)
Lemma int_floor (x : float) (n : Z) :
  int x = inr n -> (0 <=? x)%float = true -> n = Qfloor (Q_of_float x).
Proof.
  unfold int, Q_of_float. rewrite FloatAxioms.leb_spec.
  destruct (Prim2SF x) as [s | s | | [|] m e]; cbn; try discriminate.
  - intros [= <-] _. reflexivity.
  - intros [= <-] _. symmetry. apply Qfloor_finite_pos.
Qed.

Lemma int_ceiling (x : float) (n : Z) :
  int x = inr n -> (x <=? 0)%float = true -> n = Qceiling (Q_of_float x).
Proof.
  unfold int, Q_of_float. rewrite FloatAxioms.leb_spec.
  destruct (Prim2SF x) as [s | s | | [|] m e]; cbn; try discriminate.
  - intros [= <-] _. reflexivity.
  - intros [= <-] _. symmetry. apply Qceiling_finite_neg.
Qed.

(** C10: one pass of the loop sets [group_pop] to the floor of the product
    [TOTAL_POP * pop_share] (truncation, no rounding to nearest); for the
    four brackets of the table the counts are 30000, 40000, 20000 and 10000,
    the floors of the products whether taken on the binary64 product or on
    the decimal fractions, and they add up to at most [TOTAL_POP]. *)
Theorem group_pop_is_floor :
  (forall (g : Group.t) (row : pop_row),
     build_row g = inr row ->
     (0 <=? float_of_Z TOTAL_POP * Group.pop_share g)%float = true ->
     group_pop row
     = Qfloor (Q_of_float (float_of_Z TOTAL_POP * Group.pop_share g)%float))
  /\ exists rows : list pop_row,
       build_rows INCOME_GROUPS = inr rows
       /\ List.length rows = 4%nat
       /\ Forall2 (fun g row => build_row g = inr row) INCOME_GROUPS rows
       /\ map group_pop rows = [30000; 40000; 20000; 10000]
       /\ map group_pop rows
          = map (fun share => Qfloor (inject_Z TOTAL_POP * share))
              decimal_pop_share
       /\ sum_Z (map group_pop rows) <= TOTAL_POP.
Proof.
  split.
  - intros g row Hrow Hpos. unfold build_row in Hrow.
    rewrite float_of_int_TOTAL_POP in Hrow. cbn [bind] in Hrow.
    destruct (int (float_of_Z TOTAL_POP * Group.pop_share g)%float)
      as [e | n] eqn:Hint; [discriminate Hrow |].
    cbn [bind] in Hrow.
    destruct (float_of_int (Group.avg_income g)) as [e | income];
      [discriminate Hrow |].
    cbn [bind] in Hrow.
    destruct (consumption_shares (Group.name g)) as [basic lux].
    injection Hrow as <-. cbn [group_pop].
    apply int_floor; assumption.
  - exists reference_rows. split; [apply build_rows_reference |].
    split; [reflexivity |].
    split; [repeat constructor |].
    split; [reflexivity |]. split; [reflexivity |].
    vm_compute. discriminate.
Qed.

(** ** Monotonicity of the UBI side *)

Lemma recipients_ubi_columns (rule : float -> bool) (annual : Z)
    (l : list tax_row) (acc : Z) :
  recipients (ubi_columns rule annual acc l) = eligible_pop rule acc l.
Proof.
  revert acc. induction l as [| r t IH]; intros acc; [reflexivity |].
  unfold recipients, sum_Z in *.
  cbn [ubi_columns filter ubi_eligible eligible_pop].
  rewrite <- IH.
  destruct (rule (float_of_Z (acc + group_pop r) / float_of_Z TOTAL_POP)%float);
    cbn [map fold_right group_pop taxed base]; lia.
Qed.

Lemma eligible_pop_nonneg (rule : float -> bool) (l : list tax_row) :
  counts_nonneg l -> forall acc : Z, 0 <= eligible_pop rule acc l.
Proof.
  induction 1 as [| r t Hr Ht IH]; intros acc; cbn [eligible_pop]; [lia |].
  specialize (IH (acc + group_pop r)).
  destruct (rule _); lia.
Qed.

Lemma eligible_pop_mono (rule1 rule2 : float -> bool) (l : list tax_row) :
  (forall share, rule1 share = true -> rule2 share = true) ->
  counts_nonneg l ->
  forall acc : Z, eligible_pop rule1 acc l <= eligible_pop rule2 acc l.
Proof.
  intros Himp. induction 1 as [| r t Hr Ht IH]; intros acc;
    cbn [eligible_pop]; [lia |].
  specialize (IH (acc + group_pop r)).
  specialize
    (Himp (float_of_Z (acc + group_pop r) / float_of_Z TOTAL_POP)%float).
  destruct (rule1 _), (rule2 _); lia.
Qed.

Lemma ubi_columns_nested (rule1 rule2 : float -> bool) (a1 a2 : Z)
    (l : list tax_row) :
  (forall share, rule1 share = true -> rule2 share = true) ->
  forall acc : Z,
    Forall2 (fun x y : ubi_row =>
               taxed x = taxed y
               /\ (ubi_eligible x = true -> ubi_eligible y = true))
      (ubi_columns rule1 a1 acc l) (ubi_columns rule2 a2 acc l).
Proof.
  intros Himp. induction l as [| r t IH]; intros acc; cbn [ubi_columns];
    constructor; [| apply IH].
  cbn [taxed ubi_eligible]. split; [reflexivity | apply Himp].
Qed.

(** A share within the bottom 20% is within the bottom 50%. *)
Lemma leb_020_050 (share : float) :
  (share <=? 0.20)%float = true -> (share <=? 0.50)%float = true.
Proof.
  rewrite (FloatAxioms.leb_spec share 0.20), (FloatAxioms.leb_spec share 0.50).
  change (Prim2SF 0.20) with (S754_finite false 7205759403792794 (-55)).
  change (Prim2SF 0.50) with (S754_finite false 4503599627370496 (-53)).
  destruct (Prim2SF share) as [s | [|] | | [|] m e]; cbn [SFleb SFcompare];
    try (intros _; reflexivity); try (intros H; discriminate H).
  destruct (Z.compare_spec e (-55)) as [-> | Hlt | Hgt]; intros Hle.
  - reflexivity.
  - rewrite (proj2 (Z.compare_lt_iff e (-53))) by lia. reflexivity.
  - discriminate Hle.
Qed.

Lemma taxed_frame_counts (p : policy) : counts_nonneg (taxed_frame p).
Proof.
  unfold counts_nonneg, taxed_frame, reference_rows. cbn [map].
  repeat (apply Forall_cons;
          [unfold tax_columns; cbn [group_pop base]; lia |]).
  apply Forall_nil.
Qed.

Lemma sort_values_counts (l : list tax_row) :
  counts_nonneg l -> counts_nonneg (sort_values l).
Proof.
  unfold counts_nonneg. intros H.
  eapply Permutation_Forall; [apply sort_values_perm | exact H].
Qed.

Lemma recipients_final_frame (p : policy) (rule : float -> bool) :
  recipients (final_frame p rule)
  = eligible_pop rule 0 (sort_values (taxed_frame p)).
Proof. apply recipients_ubi_columns. Qed.

(** C7: for every input with one of the three targets, the runs below return
    whenever the amounts are ones the run can pay; between two runs that
    return, raising the monthly amount, all else fixed, never lowers the UBI
    cost; and whenever the run under "Everyone" returns, so do the runs under
    the two narrower targets, all else fixed, and from "Bottom 20% income" to
    "Bottom 50% income" to "Everyone" the recipients never decrease and the
    eligible rows are nested: a bracket eligible under the narrower target is
    eligible under the wider one. *)
Theorem ubi_side_monotone (p : policy) (amount' : Z) :
  valid_target (ubi_target p) ->
  ubi_monthly p <= amount' ->
  (amount_in_range p ->
   amount_in_range (with_ubi_monthly p amount') ->
   returns p
   /\ returns (with_ubi_monthly p amount')
   /\ returns (with_ubi_target p "Everyone"))
  /\ (returns p ->
      returns (with_ubi_monthly p amount') ->
      exists r r' : outcome,
        simulate p = inr r
        /\ simulate (with_ubi_monthly p amount') = inr r'
        /\ total_ubi_cost r <= total_ubi_cost r')
  /\ (returns (with_ubi_target p "Everyone") ->
      exists r20 r50 rall : outcome,
        simulate (with_ubi_target p "Bottom 20% income") = inr r20
        /\ simulate (with_ubi_target p "Bottom 50% income") = inr r50
        /\ simulate (with_ubi_target p "Everyone") = inr rall
        /\ ubi_recipients r20 <= ubi_recipients r50
        /\ ubi_recipients r50 <= ubi_recipients rall
        /\ Forall2 (fun x y : ubi_row =>
                      group x = group y
                      /\ (ubi_eligible x = true -> ubi_eligible y = true))
             (df r20) (df r50)
        /\ Forall2 (fun x y : ubi_row =>
                      group x = group y
                      /\ (ubi_eligible x = true -> ubi_eligible y = true))
             (df r50) (df rall)).
Proof.
  intros Hvalid Hle.
  assert (Hcounts : counts_nonneg (sort_values (taxed_frame p)))
    by apply sort_values_counts, taxed_frame_counts.
  destruct (proj1 (rule_of_valid_target _) Hvalid) as [rule Hrule].
  split; [| split].
  - intros Hrange Hrange'.
    split; [exact (returns_in_range p rule Hrule Hrange) |].
    split; [exact (returns_in_range (with_ubi_monthly p amount') rule
                     Hrule Hrange') |].
    exact (returns_in_range (with_ubi_target p "Everyone") _ eq_refl Hrange).
  - intros Hret Hret'.
    destruct (simulate_returns p rule Hrule Hret) as (v & _ & Hrun).
    destruct (simulate_returns (with_ubi_monthly p amount') rule Hrule
                Hret') as (v' & _ & Hrun').
    eexists. eexists. split; [exact Hrun |]. split; [exact Hrun' |].
    cbn [total_ubi_cost]. rewrite !recipients_final_frame.
    change (taxed_frame (with_ubi_monthly p amount')) with (taxed_frame p).
    cbn [ubi_monthly with_ubi_monthly].
    pose proof (eligible_pop_nonneg rule _ Hcounts 0).
    apply Z.mul_le_mono_nonneg_l; lia.
  - intros Hretall.
    pose proof (returns_cost_in_range (with_ubi_target p "Everyone") _
                  eq_refl Hretall) as Hcost.
    destruct (simulate_run (with_ubi_target p "Bottom 20% income") _
                eq_refl eq_refl) as (v20 & _ & H20).
    destruct (simulate_run (with_ubi_target p "Bottom 50% income")
                (fun share => (share <=? 0.50)%float) eq_refl)
      as (v50 & _ & H50).
    { refine (in_float_range_mono _ _ _ Hcost).
      cbn [ubi_monthly with_ubi_target].
      assert (H50 : recipients
                      (final_frame (with_ubi_target p "Bottom 50% income")
                         (fun share => (share <=? 0.50)%float)) = 30000)
        by reflexivity.
      assert (Hall : recipients
                       (final_frame (with_ubi_target p "Everyone")
                          (fun _ => true)) = 100000) by reflexivity.
      rewrite H50, Hall. lia. }
    destruct (simulate_returns (with_ubi_target p "Everyone") _
                eq_refl Hretall) as (vall & _ & Hall).
    eexists. eexists. eexists.
    split; [exact H20 |]. split; [exact H50 |]. split; [exact Hall |].
    cbn [ubi_recipients df]. rewrite !recipients_final_frame.
    change (taxed_frame (with_ubi_target p "Bottom 20% income"))
      with (taxed_frame p).
    change (taxed_frame (with_ubi_target p "Bottom 50% income"))
      with (taxed_frame p).
    change (taxed_frame (with_ubi_target p "Everyone")) with (taxed_frame p).
    split; [apply eligible_pop_mono; [exact leb_020_050 | exact Hcounts] |].
    split; [apply eligible_pop_mono; [reflexivity | exact Hcounts] |].
    unfold final_frame.
    change (taxed_frame (with_ubi_target p "Bottom 20% income"))
      with (taxed_frame p).
    change (taxed_frame (with_ubi_target p "Bottom 50% income"))
      with (taxed_frame p).
    change (taxed_frame (with_ubi_target p "Everyone")) with (taxed_frame p).
    cbn [ubi_monthly with_ubi_target].
    split.
    + eapply Forall2_impl;
        [| apply (ubi_columns_nested _ _ _ _ _ leb_020_050)].
      intros x y [Heq Himp]. split; [now rewrite Heq | exact Himp].
    + eapply Forall2_impl;
        [| apply (ubi_columns_nested
                    (fun share => (share <=? 0.50)%float) (fun _ => true))].
      * intros x y [Heq Himp]. split; [now rewrite Heq | exact Himp].
      * reflexivity.
Qed.

Lemma ubi_side_monotone_witness :
  (exists r r' : outcome,
     simulate default_policy = inr r
     /\ simulate (with_ubi_monthly default_policy 850) = inr r'
     /\ total_ubi_cost r <= total_ubi_cost r')
  /\ exists r20 r50 rall : outcome,
       simulate (with_ubi_target default_policy "Bottom 20% income")
       = inr r20
       /\ simulate (with_ubi_target default_policy "Bottom 50% income")
          = inr r50
       /\ simulate (with_ubi_target default_policy "Everyone") = inr rall
       /\ ubi_recipients r20 <= ubi_recipients r50
       /\ ubi_recipients r50 <= ubi_recipients rall
       /\ Forall2 (fun x y : ubi_row =>
                     group x = group y
                     /\ (ubi_eligible x = true -> ubi_eligible y = true))
            (df r20) (df r50)
       /\ Forall2 (fun x y : ubi_row =>
                     group x = group y
                     /\ (ubi_eligible x = true -> ubi_eligible y = true))
            (df r50) (df rall).
Proof.
  destruct (ubi_side_monotone default_policy 850)
    as (Hret & Hcost & Hnested); [left; reflexivity | discriminate |].
  destruct (Hret eq_refl eq_refl) as (R & R' & Rall).
  split; [exact (Hcost R R') | exact (Hnested Rall)].
Defined.

(** ** Monotonicity of the tax revenue *)

Lemma total_tax_group_mono (p p' : policy) (r : pop_row) :
  rates_nonneg p -> rates_le p p' -> taxable r ->
  nonneg (total_tax_group (tax_columns p r))
  /\ (total_tax_group (tax_columns p r)
      <=? total_tax_group (tax_columns p' r))%float = true.
Proof.
  intros (Nv & Nl & Ni) (Lv & Ll & Li) (Tc & Tl & Ta & Tn).
  unfold tax_columns. cbn [total_tax_group base].
  assert (Nvat := mul_nonneg _ _ Nv Tc).
  assert (Nlux := mul_nonneg _ _ Nl Tl).
  assert (Ninc := mul_nonneg _ _ Ni Ta).
  assert (Mvat := mul_mono _ _ _ Nv Lv Tc).
  assert (Mlux := mul_mono _ _ _ Nl Ll Tl).
  assert (Minc := mul_mono _ _ _ Ni Li Ta).
  assert (N2 := add_nonneg _ _ Nvat Nlux).
  assert (M2 := add_mono _ _ _ _ Nvat Nlux Mvat Mlux).
  assert (N3 := add_nonneg _ _ N2 Ninc).
  assert (M3 := add_mono _ _ _ _ N2 Ninc M2 Minc).
  split; [apply mul_nonneg | apply mul_mono]; assumption.
Qed.

Lemma fold_add_mono (xs ys : list float) :
  Forall2 (fun x y => nonneg x /\ (x <=? y)%float = true) xs ys ->
  forall acc acc' : float,
    nonneg acc -> (acc <=? acc')%float = true ->
    (fold_left PrimFloat.add xs acc <=? fold_left PrimFloat.add ys acc')%float
    = true.
Proof.
  induction 1 as [| x y xs ys [Nx Lxy] _ IH]; intros acc acc' Nacc Lacc;
    cbn [fold_left]; [exact Lacc |].
  apply IH; [apply add_nonneg | apply add_mono]; assumption.
Qed.

Lemma series_sum_mono (xs ys : list float) :
  Forall2 (fun x y => nonneg x /\ (x <=? y)%float = true) xs ys ->
  (series_sum xs <=? series_sum ys)%float = true.
Proof.
  intros H.
  assert (Hnum : Forall (fun x => is_nan x = false) xs
                 /\ Forall (fun y => is_nan y = false) ys).
  { induction H as [| x y xs ys [_ Hxy] _ [IHx IHy]];
      [split; constructor |].
    destruct (leb_is_number _ _ Hxy).
    split; constructor; assumption. }
  destruct Hnum as [Hxs Hys].
  rewrite !series_sum_numbers by assumption.
  apply fold_add_mono; [exact H | reflexivity | reflexivity].
Qed.

Lemma reference_rows_taxable : Forall taxable reference_rows.
Proof. repeat constructor. Qed.

Lemma taxed_frame_mono (p p' : policy) :
  rates_nonneg p -> rates_le p p' ->
  (series_sum (map total_tax_group (taxed_frame p))
   <=? series_sum (map total_tax_group (taxed_frame p')))%float = true.
Proof.
  intros Hn Hle. apply series_sum_mono. unfold taxed_frame.
  induction reference_rows_taxable as [| r l Hr _ IH]; cbn [map];
    constructor; [| exact IH].
  apply total_tax_group_mono; assumption.
Qed.

Lemma revenue_mono (p p' : policy) :
  valid_target (ubi_target p) -> ubi_target p' = ubi_target p ->
  returns p -> returns p' ->
  rates_nonneg p -> rates_le p p' ->
  revenue_not_lower p p'.
Proof.
  intros Hvalid Htarget Hret Hret' Hn Hle.
  destruct (proj1 (rule_of_valid_target _) Hvalid) as [rule Hrule].
  destruct (simulate_returns p rule Hrule Hret) as (v & _ & Hrun).
  destruct (simulate_returns p' rule) as (v' & _ & Hrun');
    [rewrite Htarget; exact Hrule | exact Hret' |].
  eexists. eexists. split; [exact Hrun |]. split; [exact Hrun' |].
  cbn [total_tax_revenue]. apply taxed_frame_mono; assumption.
Qed.

(** C6: for every input with one of the three targets and rates that are not
    below zero, the run returns whenever the amount is one it can pay; and
    whenever it returns, replacing one of the VAT rate, the luxury tax rate
    and the income tax rate by a rate that is not lower, all else fixed,
    gives a run that returns as well, with a tax revenue that is not
    lower. *)
Theorem tax_revenue_monotone (p : policy) (rate' : float) :
  valid_target (ubi_target p) ->
  nonneg (vat_rate p) ->
  nonneg (luxury_tax_rate p) ->
  nonneg (income_tax_rate p) ->
  (amount_in_range p -> returns p)
  /\ (returns p ->
      ((vat_rate p <=? rate')%float = true ->
       revenue_not_lower p (with_vat_rate p rate'))
      /\ ((luxury_tax_rate p <=? rate')%float = true ->
          revenue_not_lower p (with_luxury_tax_rate p rate'))
      /\ ((income_tax_rate p <=? rate')%float = true ->
          revenue_not_lower p (with_income_tax_rate p rate'))).
Proof.
  intros Hvalid Nv Nl Ni.
  destruct (proj1 (rule_of_valid_target _) Hvalid) as [rule Hrule].
  split; [intros Hrange; exact (returns_in_range p rule Hrule Hrange) |].
  intros Hret.
  pose proof (leb_refl_nonneg _ Nv) as Rv.
  pose proof (leb_refl_nonneg _ Nl) as Rl.
  pose proof (leb_refl_nonneg _ Ni) as Ri.
  repeat split; intros Hle;
    (apply revenue_mono;
     [exact Hvalid | reflexivity | exact Hret
     | apply (returns_same_levers p _ rule Hrule);
       [reflexivity | reflexivity | exact Hret]
     | repeat split; assumption | repeat split; assumption]).
Qed.

Lemma tax_revenue_monotone_witness :
  revenue_not_lower default_policy (with_vat_rate default_policy 0.20)
  /\ revenue_not_lower default_policy
       (with_luxury_tax_rate default_policy 0.20)
  /\ revenue_not_lower default_policy
       (with_income_tax_rate default_policy 0.20).
Proof.
  destruct (tax_revenue_monotone default_policy 0.20) as (Hret & Hrun);
    [left; reflexivity | reflexivity | reflexivity | reflexivity |].
  destruct (Hrun (Hret eq_refl)) as (Hv & Hl & Hi).
  repeat split; [apply Hv | apply Hl | apply Hi]; reflexivity.
Defined.

(** ** Budget *)

Lemma tax_columns_nonneg (p : policy) (r : pop_row) :
  rates_nonneg p -> taxable r -> taxes_nonneg (tax_columns p r).
Proof.
  intros (Nv & Nl & Ni) (Tc & Tl & Ta & Tn).
  unfold taxes_nonneg, tax_columns.
  cbn [vat_tax_per_person lux_tax_per_person income_tax_per_person
       total_tax_per_person total_tax_group base].
  assert (Nvat := mul_nonneg _ _ Nv Tc).
  assert (Nlux := mul_nonneg _ _ Nl Tl).
  assert (Ninc := mul_nonneg _ _ Ni Ta).
  assert (N2 := add_nonneg _ _ Nvat Nlux).
  assert (N3 := add_nonneg _ _ N2 Ninc).
  repeat split; try assumption. apply mul_nonneg; assumption.
Qed.

Lemma taxed_frame_nonneg (p : policy) :
  rates_nonneg p -> Forall taxes_nonneg (taxed_frame p).
Proof.
  intros Hn. unfold taxed_frame. apply Forall_map.
  eapply Forall_impl; [| exact reference_rows_taxable].
  intros r Hr. apply tax_columns_nonneg; assumption.
Qed.

Lemma final_frame_taxed (p : policy) (rule : float -> bool) :
  map taxed (final_frame p rule) = taxed_frame p.
Proof. unfold final_frame. rewrite ubi_columns_taxed. reflexivity. Qed.

Lemma counted_spec (x : float) :
  (if is_nan x then 0%float else x) = counted x.
Proof. unfold is_nan, counted. destruct (x =? x)%float; reflexivity. Qed.

Lemma counted_number (x : float) : is_nan x = false -> counted x = x.
Proof. intros H. rewrite <- counted_spec, H. reflexivity. Qed.

Lemma series_sum_four (x1 x2 x3 x4 : float) :
  series_sum [x1; x2; x3; x4]
  = (0 + counted x1 + counted x2 + counted x3 + counted x4)%float.
Proof.
  unfold series_sum. cbn [map fold_left]. rewrite !counted_spec. reflexivity.
Qed.

(** The frame has the four brackets of the table, and the column the
    revenue sums holds their taxes in that order. *)
Lemma final_frame_brackets (p : policy) (rule : float -> bool) :
  exists a b c d : ubi_row,
    final_frame p rule = [a; b; c; d]
    /\ map total_tax_group (taxed_frame p)
       = [bracket_tax a; bracket_tax b; bracket_tax c; bracket_tax d].
Proof. do 4 eexists. split; reflexivity. Qed.

(** C4, as stated, fails on a rate that is not a number and on an amount the
    run cannot pay.  With a NaN VAT rate the tax of every bracket is NaN; the
    sum of the column skips every one of them, and the revenue is [0.0] and
    not the sum of the taxes of the brackets.  With a monthly amount of
    [10^400] under "Everyone" the subtraction of the balance raises, and
    there is no balance. *)
Lemma nan_tax_not_in_revenue :
  (exists r : outcome,
     simulate nan_vat_policy = inr r
     /\ Forall (fun row : ubi_row => bracket_tax row = nan) (df r)
     /\ total_tax_revenue r = 0%float
     /\ total_ubi_cost r = 960000000
     /\ budget_surplus r = (-960000000)%float)
  /\ simulate huge_amount_policy = inl OverflowError.
Proof.
  split; [| vm_compute; reflexivity].
  eexists. split; [vm_compute; reflexivity |].
  cbn [df total_tax_revenue total_ubi_cost budget_surplus].
  split; [| repeat split].
  repeat (apply Forall_cons; [reflexivity |]). apply Forall_nil.
Qed.

(** C4, amended: for every input with one of the three targets, the run
    returns whenever the amount is one it can pay; and whenever it returns,
    the balance is the revenue minus the UBI cost (one binary64 subtraction,
    the cost converted to [float]); the revenue is the sum, from the first
    bracket to the last, of the brackets' taxes, [total_tax_per_person] times
    [group_pop], in which a tax that is NaN counts as [0.0]; with rates that
    are not below zero no tax is NaN and the revenue is the sum of the taxes
    of the four brackets (the sign of a revenue of zero is left open in
    both); the cost is the recipients times 12 times the monthly amount. *)
Theorem budget_identity (p : policy) :
  valid_target (ubi_target p) ->
  (amount_in_range p -> returns p)
  /\ (returns p ->
      exists (r : outcome) (a b c d : ubi_row),
        simulate p = inr r
        /\ df r = [a; b; c; d]
        /\ budget_surplus r
           = (total_tax_revenue r - float_of_Z (total_ubi_cost r))%float
        /\ same_number (total_tax_revenue r)
             (0 + counted (bracket_tax a) + counted (bracket_tax b)
              + counted (bracket_tax c) + counted (bracket_tax d))%float
        /\ (rates_nonneg p ->
            same_number (total_tax_revenue r)
              (0 + bracket_tax a + bracket_tax b + bracket_tax c
               + bracket_tax d)%float)
        /\ total_ubi_cost r = ubi_recipients r * 12 * ubi_monthly p).
Proof.
  intros Hvalid.
  destruct (proj1 (rule_of_valid_target _) Hvalid) as [rule Hrule].
  split; [intros Hrange; exact (returns_in_range p rule Hrule Hrange) |].
  intros Hret.
  destruct (simulate_returns p rule Hrule Hret) as (v & _ & Hrun).
  destruct (final_frame_brackets p rule) as (a & b & c & d & Hframe & Hcol).
  eexists. exists a, b, c, d. split; [exact Hrun |].
  cbn [df budget_surplus total_tax_revenue total_ubi_cost ubi_recipients].
  split; [exact Hframe |]. split; [reflexivity |].
  rewrite Hcol, series_sum_four.
  split; [left; reflexivity |]. split; [| ring].
  intros Hn. left.
  assert (Hnum : Forall (fun x => is_nan x = false)
                   [bracket_tax a; bracket_tax b; bracket_tax c;
                    bracket_tax d]).
  { rewrite <- Hcol. apply Forall_map.
    eapply Forall_impl; [| exact (taxed_frame_nonneg p Hn)].
    intros r (_ & _ & _ & _ & H). apply nonneg_is_number, H. }
  inversion Hnum as [| ? ? Ha Hnum1]; subst.
  inversion Hnum1 as [| ? ? Hb Hnum2]; subst.
  inversion Hnum2 as [| ? ? Hc Hnum3]; subst.
  inversion Hnum3 as [| ? ? Hd _]; subst.
  rewrite !counted_number by assumption. reflexivity.
Qed.

Lemma budget_identity_witness :
  exists (r : outcome) (a b c d : ubi_row),
    simulate default_policy = inr r
    /\ df r = [a; b; c; d]
    /\ budget_surplus r
       = (total_tax_revenue r - float_of_Z (total_ubi_cost r))%float
    /\ same_number (total_tax_revenue r)
         (0 + counted (bracket_tax a) + counted (bracket_tax b)
          + counted (bracket_tax c) + counted (bracket_tax d))%float
    /\ (rates_nonneg default_policy ->
        same_number (total_tax_revenue r)
          (0 + bracket_tax a + bracket_tax b + bracket_tax c
           + bracket_tax d)%float)
    /\ total_ubi_cost r = ubi_recipients r * 12 * ubi_monthly default_policy.
Proof.
  destruct (budget_identity default_policy) as [Hret Hrun];
    [left; reflexivity |].
  apply Hrun, Hret. reflexivity.
Defined.

(** * Further properties of the run *)

(** ** The sort *)

Lemma same_income_same_row (l : list tax_row) (a b : tax_row) :
  distinct_incomes l -> In a l -> In b l ->
  avg_income a = avg_income b -> a = b.
Proof.
  unfold distinct_incomes.
  induction l as [| h t IH]; intros Hd Ha Hb Heq; [destruct Ha |].
  cbn [map] in Hd. inversion Hd as [| x xs Hnotin Hd']; subst.
  destruct Ha as [<- | Ha], Hb as [<- | Hb].
  - reflexivity.
  - exfalso. apply Hnotin. rewrite Heq.
    apply (in_map (fun r : tax_row => avg_income r)), Hb.
  - exfalso. apply Hnotin. rewrite <- Heq.
    apply (in_map (fun r : tax_row => avg_income r)), Ha.
  - apply IH; assumption.
Qed.

Lemma ascending_unique (l1 l2 : list tax_row) :
  distinct_incomes l1 -> Permutation l1 l2 ->
  ascending base l1 -> ascending base l2 -> l1 = l2.
Proof.
  revert l2. induction l1 as [| a t1 IH]; intros l2 Hd Hp H1 H2.
  - apply Permutation_nil in Hp. now subst.
  - destruct l2 as [| b t2];
      [apply Permutation_sym, Permutation_nil in Hp; discriminate Hp |].
    assert (Hb : In b (a :: t1))
      by (eapply Permutation_in; [apply Permutation_sym, Hp | now left]).
    assert (Ha : In a (b :: t2))
      by (eapply Permutation_in; [exact Hp | now left]).
    assert (Hab : a = b).
    { apply (same_income_same_row (a :: t1));
        [exact Hd | now left | exact Hb |].
      apply Z.le_antisymm.
      - exact (ascending_head_least base a t1 b H1 Hb).
      - exact (ascending_head_least base b t2 a H2 Ha). }
    subst b. f_equal. apply IH.
    + unfold distinct_incomes in *. cbn [map] in Hd.
      inversion Hd; assumption.
    + eapply Permutation_cons_inv, Hp.
    + unfold ascending in *. inversion H1; assumption.
    + unfold ascending in *. inversion H2; assumption.
Qed.

(** X1: for any frame, [sort_values] returns a permutation of its rows in
    ascending order of [avg_income]; and where no two rows have the same
    income that is the only ascending arrangement of the rows there is, so
    that the result does not depend on the sorting algorithm. *)
Theorem sort_values_sorts (l : list tax_row) :
  Permutation l (sort_values l)
  /\ ascending base (sort_values l)
  /\ (distinct_incomes l ->
      forall l' : list tax_row,
        Permutation l l' -> ascending base l' -> l' = sort_values l).
Proof.
  split; [apply sort_values_perm |].
  split; [apply sort_values_ascending |].
  intros Hd l' Hp Ha. apply ascending_unique.
  - unfold distinct_incomes in *.
    eapply Permutation_NoDup; [| exact Hd].
    apply Permutation_map, Hp.
  - eapply perm_trans; [apply Permutation_sym, Hp | apply sort_values_perm].
  - exact Ha.
  - apply sort_values_ascending.
Qed.

Lemma strictly_ascending_ascending (l : list tax_row) :
  strictly_ascending l -> ascending base l.
Proof.
  unfold strictly_ascending, ascending.
  induction 1 as [| a t _ IH Hall]; constructor; [exact IH |].
  eapply Forall_impl; [| exact Hall].
  unfold income_le. intros b Hb. lia.
Qed.

Lemma insert_row_least (r : tax_row) (l : list tax_row) :
  ascending base (r :: l) -> insert_row r l = r :: l.
Proof.
  unfold ascending. intros Hs. inversion Hs as [| a t _ Hall]; subst.
  destruct l as [| h t]; [reflexivity |]. cbn [insert_row].
  inversion Hall as [| x y Hh _]; subst. unfold income_le in Hh.
  destruct (Z.leb_spec (avg_income r) (avg_income h)); [reflexivity | lia].
Qed.

Lemma sort_values_ascending_frame (l : list tax_row) :
  ascending base l -> sort_values l = l.
Proof.
  intros Hs. induction l as [| r t IH]; [reflexivity |].
  cbn [sort_values fold_right]. fold (sort_values t).
  assert (Ht : ascending base t) by (inversion Hs; assumption).
  rewrite (IH Ht). apply insert_row_least, Hs.
Qed.

(** X2: a frame whose incomes grow from each row to the next is returned
    unchanged by [sort_values]. *)
Theorem sort_values_of_strictly_ascending (l : list tax_row) :
  strictly_ascending l -> sort_values l = l.
Proof.
  intros Hs. apply sort_values_ascending_frame.
  apply strictly_ascending_ascending, Hs.
Qed.

Lemma taxed_frame_strictly_ascending (p : policy) :
  strictly_ascending (taxed_frame p).
Proof.
  unfold strictly_ascending, taxed_frame, reference_rows. cbn [map].
  repeat (apply SSorted_cons;
          [| repeat (apply Forall_cons;
                     [unfold tax_columns; cbn [avg_income base]; lia |]);
             apply Forall_nil]).
  apply SSorted_nil.
Qed.

Lemma sort_values_of_strictly_ascending_witness :
  sort_values (taxed_frame default_policy) = taxed_frame default_policy.
Proof.
  apply (sort_values_of_strictly_ascending (taxed_frame default_policy)).
  apply taxed_frame_strictly_ascending.
Defined.

(** ** Recipients *)

Lemma eligible_pop_everyone (p : policy) :
  eligible_pop (fun _ => true) 0 (sort_values (taxed_frame p)) = TOTAL_POP.
Proof. reflexivity. Qed.

(** X3: for every input with one of the three targets, the run returns
    whenever the amount is one it can pay; and whenever it returns, the
    recipients lie between 0 and [TOTAL_POP], and the UBI cost lies between 0
    and [TOTAL_POP * 12 * ubi_monthly] when the amount is not negative, and
    between that product and 0 when it is not positive. *)
Theorem ubi_recipients_bounds (p : policy) :
  valid_target (ubi_target p) ->
  (amount_in_range p -> returns p)
  /\ (returns p ->
      exists r : outcome,
        simulate p = inr r
        /\ 0 <= ubi_recipients r <= TOTAL_POP
        /\ (0 <= ubi_monthly p ->
            0 <= total_ubi_cost r <= TOTAL_POP * 12 * ubi_monthly p)
        /\ (ubi_monthly p <= 0 ->
            TOTAL_POP * 12 * ubi_monthly p <= total_ubi_cost r <= 0)).
Proof.
  intros Hvalid.
  destruct (proj1 (rule_of_valid_target _) Hvalid) as [rule Hrule].
  split; [intros Hrange; exact (returns_in_range p rule Hrule Hrange) |].
  intros Hret.
  destruct (simulate_returns p rule Hrule Hret) as (v & _ & Hrun).
  eexists. split; [exact Hrun |]. cbn [ubi_recipients total_ubi_cost].
  rewrite recipients_final_frame.
  assert (Hcounts : counts_nonneg (sort_values (taxed_frame p)))
    by apply sort_values_counts, taxed_frame_counts.
  pose proof (eligible_pop_nonneg rule _ Hcounts 0) as Hlo.
  pose proof (eligible_pop_mono rule (fun _ => true) _
                (fun _ _ => eq_refl) Hcounts 0) as Hhi.
  rewrite eligible_pop_everyone in Hhi.
  set (n := eligible_pop rule 0 (sort_values (taxed_frame p))) in *.
  clearbody n. split; [lia |]. split; intros Ha; nia.
Qed.

Lemma ubi_recipients_bounds_witness :
  exists r : outcome,
    simulate default_policy = inr r
    /\ 0 <= ubi_recipients r <= TOTAL_POP
    /\ (0 <= ubi_monthly default_policy ->
        0 <= total_ubi_cost r <= TOTAL_POP * 12 * ubi_monthly default_policy)
    /\ (ubi_monthly default_policy <= 0 ->
        TOTAL_POP * 12 * ubi_monthly default_policy
        <= total_ubi_cost r <= 0).
Proof.
  destruct (ubi_recipients_bounds default_policy) as [Hret Hrun];
    [left; reflexivity |].
  apply Hrun, Hret. reflexivity.
Defined.

(** X4: under "Bottom 50% income" the run returns whenever the amount is one
    it can pay; and whenever it returns, whatever the rates, only the Low
    bracket is eligible (the cumulative shares are 0.3, 0.7, 0.9 and 1), the
    recipients are 30000 and the UBI cost is [30000 * 12 * ubi_monthly]. *)
Theorem bottom_50_reaches_low_only (p : policy) :
  ubi_target p = "Bottom 50% income" ->
  (amount_in_range p -> returns p)
  /\ (returns p ->
      exists r : outcome,
        simulate p = inr r
        /\ map (fun row : ubi_row => (group row, ubi_eligible row)) (df r)
           = [("Low", true); ("Lower-Middle", false);
              ("Upper-Middle", false); ("High", false)]
        /\ map cum_pop_share (df r) = [0.3; 0.7; 0.9; 1]%float
        /\ ubi_recipients r = 30000
        /\ total_ubi_cost r = 30000 * 12 * ubi_monthly p).
Proof.
  intros Htarget.
  assert (Hrule : ubi_eligible_rule (ubi_target p)
                  = Some (fun share => (share <=? 0.50)%float))
    by (rewrite Htarget; reflexivity).
  split; [intros Hrange; exact (returns_in_range p _ Hrule Hrange) |].
  intros Hret.
  destruct (simulate_returns p _ Hrule Hret) as (v & _ & Hrun).
  eexists. split; [exact Hrun |].
  cbn [df ubi_recipients total_ubi_cost].
  split; [reflexivity |]. split; [reflexivity |].
  assert (Hrec : recipients
                   (final_frame p (fun share => (share <=? 0.50)%float))
                 = 30000) by reflexivity.
  rewrite Hrec. split; [reflexivity | ring].
Qed.

Lemma bottom_50_reaches_low_only_witness :
  exists r : outcome,
    simulate (with_ubi_target default_policy "Bottom 50% income") = inr r
    /\ map (fun row : ubi_row => (group row, ubi_eligible row)) (df r)
       = [("Low", true); ("Lower-Middle", false);
          ("Upper-Middle", false); ("High", false)]
    /\ map cum_pop_share (df r) = [0.3; 0.7; 0.9; 1]%float
    /\ ubi_recipients r = 30000
    /\ total_ubi_cost r
       = 30000 * 12
         * ubi_monthly (with_ubi_target default_policy "Bottom 50% income").
Proof.
  destruct (bottom_50_reaches_low_only
              (with_ubi_target default_policy "Bottom 50% income"))
    as [Hret Hrun]; [reflexivity |].
  apply Hrun, Hret. reflexivity.
Defined.

(** ** The two sides of the budget do not interact *)

(** X5: the tax side does not depend on the UBI levers: between two runs that
    return (as they do when the amounts are ones the run can pay), replacing
    the monthly amount and the target (by one of the three) leaves the tax
    revenue and every tax column of every row unchanged. *)
Theorem revenue_ignores_ubi_levers (p : policy) (amount : Z)
    (target : string) :
  valid_target (ubi_target p) ->
  valid_target target ->
  (amount_in_range p ->
   amount_in_range (with_ubi p amount target) ->
   returns p /\ returns (with_ubi p amount target))
  /\ (returns p ->
      returns (with_ubi p amount target) ->
      exists r r' : outcome,
        simulate p = inr r
        /\ simulate (with_ubi p amount target) = inr r'
        /\ total_tax_revenue r' = total_tax_revenue r
        /\ map taxed (df r') = map taxed (df r)).
Proof.
  intros Hvalid Hvalid'.
  destruct (proj1 (rule_of_valid_target _) Hvalid) as [rule Hrule].
  destruct (proj1 (rule_of_valid_target _) Hvalid') as [rule' Hrule'].
  split.
  { intros Hrange Hrange'.
    split; [exact (returns_in_range p rule Hrule Hrange) |].
    exact (returns_in_range (with_ubi p amount target) rule' Hrule'
             Hrange'). }
  intros Hret Hret'.
  destruct (simulate_returns p rule Hrule Hret) as (v & _ & Hrun).
  destruct (simulate_returns (with_ubi p amount target) rule' Hrule'
              Hret') as (v' & _ & Hrun').
  eexists. eexists. split; [exact Hrun |]. split; [exact Hrun' |].
  cbn [total_tax_revenue df]. split; [reflexivity |].
  unfold final_frame. rewrite !ubi_columns_taxed. reflexivity.
Qed.

Lemma revenue_ignores_ubi_levers_witness :
  exists r r' : outcome,
    simulate default_policy = inr r
    /\ simulate (with_ubi default_policy 0 "Bottom 20% income") = inr r'
    /\ total_tax_revenue r' = total_tax_revenue r
    /\ map taxed (df r') = map taxed (df r).
Proof.
  destruct (revenue_ignores_ubi_levers default_policy 0 "Bottom 20% income")
    as (Hret & Hrun); [left; reflexivity | right; right; reflexivity |].
  destruct (Hret eq_refl eq_refl) as (R & R').
  exact (Hrun R R').
Defined.

(** X6: the UBI side does not depend on the tax rates: of two inputs with the
    same monthly amount and the same target the one returns when the other
    does (as they do when the amount is one the run can pay), with the same
    cumulative counts and shares, eligibility and UBI per person on every
    row, the same recipients and the same UBI cost. *)
Theorem ubi_side_ignores_tax_rates (p p' : policy) :
  valid_target (ubi_target p) ->
  same_ubi_levers p p' ->
  (amount_in_range p -> returns p)
  /\ (returns p ->
      exists r r' : outcome,
        simulate p = inr r
        /\ simulate p' = inr r'
        /\ ubi_side (df r') = ubi_side (df r)
        /\ ubi_recipients r' = ubi_recipients r
        /\ total_ubi_cost r' = total_ubi_cost r).
Proof.
  intros Hvalid [Hamount Htarget].
  destruct (proj1 (rule_of_valid_target _) Hvalid) as [rule Hrule].
  split; [intros Hrange; exact (returns_in_range p rule Hrule Hrange) |].
  intros Hret.
  destruct (simulate_returns p rule Hrule Hret) as (v & _ & Hrun).
  destruct (simulate_returns p' rule) as (v' & _ & Hrun');
    [rewrite Htarget; exact Hrule
    | exact (returns_same_levers p p' rule Hrule Hamount Htarget Hret) |].
  eexists. eexists. split; [exact Hrun |]. split; [exact Hrun' |].
  cbn [df ubi_recipients total_ubi_cost].
  rewrite !recipients_final_frame, Hamount.
  split; [| split; reflexivity].
  unfold final_frame. rewrite Hamount. reflexivity.
Qed.

Lemma ubi_side_ignores_tax_rates_witness :
  exists r r' : outcome,
    simulate default_policy = inr r
    /\ simulate (with_vat_rate default_policy 0.30) = inr r'
    /\ ubi_side (df r') = ubi_side (df r)
    /\ ubi_recipients r' = ubi_recipients r
    /\ total_ubi_cost r' = total_ubi_cost r.
Proof.
  destruct (ubi_side_ignores_tax_rates default_policy
              (with_vat_rate default_policy 0.30)) as (Hret & Hrun);
    [left; reflexivity | split; reflexivity |].
  apply Hrun, Hret. reflexivity.
Defined.

(** ** Taxes under rates that are not below zero *)

Lemma tax_columns_le (p p' : policy) (r : pop_row) :
  rates_nonneg p -> rates_le p p' -> taxable r ->
  taxes_le (tax_columns p r) (tax_columns p' r).
Proof.
  intros (Nv & Nl & Ni) (Lv & Ll & Li) (Tc & Tl & Ta & Tn).
  unfold taxes_le, tax_columns.
  cbn [vat_tax_per_person lux_tax_per_person income_tax_per_person
       total_tax_per_person total_tax_group base group].
  assert (Nvat := mul_nonneg _ _ Nv Tc).
  assert (Nlux := mul_nonneg _ _ Nl Tl).
  assert (Ninc := mul_nonneg _ _ Ni Ta).
  assert (Mvat := mul_mono _ _ _ Nv Lv Tc).
  assert (Mlux := mul_mono _ _ _ Nl Ll Tl).
  assert (Minc := mul_mono _ _ _ Ni Li Ta).
  assert (N2 := add_nonneg _ _ Nvat Nlux).
  assert (M2 := add_mono _ _ _ _ Nvat Nlux Mvat Mlux).
  assert (N3 := add_nonneg _ _ N2 Ninc).
  assert (M3 := add_mono _ _ _ _ N2 Ninc M2 Minc).
  repeat split; try assumption. apply mul_mono; assumption.
Qed.

Lemma fold_add_nonneg (xs : list float) :
  Forall nonneg xs ->
  forall acc : float, nonneg acc -> nonneg (fold_left PrimFloat.add xs acc).
Proof.
  induction 1 as [| x xs Hx _ IH]; intros acc Hacc; cbn [fold_left];
    [exact Hacc |].
  apply IH, add_nonneg; assumption.
Qed.

Lemma revenue_nonneg (p : policy) :
  rates_nonneg p ->
  nonneg (series_sum (map total_tax_group (taxed_frame p))).
Proof.
  intros Hn.
  assert (H : Forall nonneg (map total_tax_group (taxed_frame p))).
  { apply Forall_map.
    eapply Forall_impl; [| exact (taxed_frame_nonneg p Hn)].
    intros r (_ & _ & _ & _ & H). exact H. }
  rewrite series_sum_numbers.
  - apply fold_add_nonneg; [exact H | reflexivity].
  - eapply Forall_impl; [| exact H]. exact nonneg_is_number.
Qed.

Lemma taxes_nonneg_revenue (p : policy) :
  valid_target (ubi_target p) ->
  returns p ->
  rates_nonneg p ->
  exists r : outcome, simulate p = inr r /\ nonneg (total_tax_revenue r).
Proof.
  intros Hvalid Hret Hn.
  destruct (proj1 (rule_of_valid_target _) Hvalid) as [rule Hrule].
  destruct (simulate_returns p rule Hrule Hret) as (v & _ & Hrun).
  eexists. split; [exact Hrun |]. cbn [total_tax_revenue].
  apply revenue_nonneg, Hn.
Qed.

(** X7: for every input with one of the three targets and rates that are not
    below zero, the run returns whenever the amount is one it can pay; and
    whenever it returns, every tax of every bracket (VAT, luxury, income,
    total per person, total of the group) and the tax revenue are numbers (no
    NaN) that are not below zero. *)
Theorem taxes_never_negative (p : policy) :
  valid_target (ubi_target p) ->
  rates_nonneg p ->
  (amount_in_range p -> returns p)
  /\ (returns p ->
      exists r : outcome,
        simulate p = inr r
        /\ Forall (fun row : ubi_row => taxes_nonneg row) (df r)
        /\ nonneg (total_tax_revenue r)).
Proof.
  intros Hvalid Hn.
  destruct (proj1 (rule_of_valid_target _) Hvalid) as [rule Hrule].
  split; [intros Hrange; exact (returns_in_range p rule Hrule Hrange) |].
  intros Hret.
  destruct (simulate_returns p rule Hrule Hret) as (v & _ & Hrun).
  pose proof (taxed_frame_nonneg p Hn) as Hframe.
  eexists. split; [exact Hrun |]. cbn [df total_tax_revenue]. split.
  - rewrite <- (final_frame_taxed p rule) in Hframe.
    rewrite Forall_map in Hframe. exact Hframe.
  - apply revenue_nonneg, Hn.
Qed.

Lemma taxes_never_negative_witness :
  exists r : outcome,
    simulate default_policy = inr r
    /\ Forall (fun row : ubi_row => taxes_nonneg row) (df r)
    /\ nonneg (total_tax_revenue r).
Proof.
  destruct (taxes_never_negative default_policy) as [Hret Hrun];
    [left; reflexivity | repeat split |].
  apply Hrun, Hret. reflexivity.
Defined.

(** X8: between two runs that return (as they do when the amounts are ones
    the run can pay), raising any number of the three rates at once, from
    rates that are not below zero and with the target fixed, lowers no tax of
    any bracket and does not lower the tax revenue. *)
Theorem taxes_monotone_jointly (p p' : policy) :
  valid_target (ubi_target p) ->
  ubi_target p' = ubi_target p ->
  rates_nonneg p ->
  rates_le p p' ->
  (amount_in_range p -> amount_in_range p' -> returns p /\ returns p')
  /\ (returns p ->
      returns p' ->
      exists r r' : outcome,
        simulate p = inr r
        /\ simulate p' = inr r'
        /\ Forall2 (fun row row' : ubi_row => taxes_le row row')
             (df r) (df r')
        /\ (total_tax_revenue r <=? total_tax_revenue r')%float = true).
Proof.
  intros Hvalid Htarget Hn Hle.
  destruct (proj1 (rule_of_valid_target _) Hvalid) as [rule Hrule].
  assert (Hrule' : ubi_eligible_rule (ubi_target p') = Some rule)
    by (rewrite Htarget; exact Hrule).
  split.
  { intros Hrange Hrange'.
    split; [exact (returns_in_range p rule Hrule Hrange) |].
    exact (returns_in_range p' rule Hrule' Hrange'). }
  intros Hret Hret'.
  destruct (simulate_returns p rule Hrule Hret) as (v & _ & Hrun).
  destruct (simulate_returns p' rule Hrule' Hret') as (v' & _ & Hrun').
  eexists. eexists. split; [exact Hrun |]. split; [exact Hrun' |].
  cbn [df total_tax_revenue]. split; [| apply taxed_frame_mono; assumption].
  assert (H : Forall2 taxes_le (taxed_frame p) (taxed_frame p')).
  { unfold taxed_frame.
    induction reference_rows_taxable as [| r0 l Hr _ IH]; cbn [map];
      constructor; [| exact IH].
    apply tax_columns_le; assumption. }
  rewrite <- (final_frame_taxed p rule) in H.
  rewrite <- (final_frame_taxed p' rule) in H.
  revert H. generalize (final_frame p rule), (final_frame p' rule).
  induction l as [| a l IH]; intros [| b l'] H; cbn [map] in H;
    inversion H; subst; constructor; [assumption | apply IH; assumption].
Qed.

Lemma taxes_monotone_jointly_witness :
  exists r r' : outcome,
    simulate default_policy = inr r
    /\ simulate (mkPolicy 0.20 0.25 0.30 800 "Everyone")%float = inr r'
    /\ Forall2 (fun row row' : ubi_row => taxes_le row row') (df r) (df r')
    /\ (total_tax_revenue r <=? total_tax_revenue r')%float = true.
Proof.
  destruct (taxes_monotone_jointly default_policy
              (mkPolicy 0.20 0.25 0.30 800 "Everyone")%float)
    as (Hret & Hrun);
    [left; reflexivity | reflexivity | repeat split | repeat split |].
  destruct (Hret eq_refl eq_refl) as (R & R').
  exact (Hrun R R').
Defined.

(** ** Balance *)

Lemma sub_zero (x : float) : (x - 0)%float = x.
Proof.
  apply Prim2SF_inj. rewrite sub_spec.
  change (Prim2SF 0%float) with (S754_zero false).
  destruct (Prim2SF x) as [[|] | [|] | | [|] m e]; reflexivity.
Qed.

(** X9: with a monthly amount of 0 the UBI cost is 0 and the balance is the
    tax revenue itself, bit for bit, whatever the rates. *)
Theorem balance_without_ubi (p : policy) :
  valid_target (ubi_target p) ->
  ubi_monthly p = 0 ->
  exists r : outcome,
    simulate p = inr r
    /\ total_ubi_cost r = 0
    /\ budget_surplus r = total_tax_revenue r.
Proof.
  intros Hvalid Hamount.
  destruct (proj1 (rule_of_valid_target _) Hvalid) as [rule Hrule].
  destruct (simulate_returns p rule Hrule
              (returns_in_range p rule Hrule (amount_in_range_zero p Hamount)))
    as (v & _ & Hrun).
  eexists. split; [exact Hrun |].
  cbn [total_ubi_cost budget_surplus total_tax_revenue].
  rewrite Hamount, Z.mul_0_l, Z.mul_0_r.
  split; [reflexivity |]. change (float_of_Z 0) with 0%float.
  apply sub_zero.
Qed.

Lemma balance_without_ubi_witness :
  exists r : outcome,
    simulate (with_ubi_monthly default_policy 0) = inr r
    /\ total_ubi_cost r = 0
    /\ budget_surplus r = total_tax_revenue r.
Proof.
  apply (balance_without_ubi (with_ubi_monthly default_policy 0)).
  - left. reflexivity.
  - reflexivity.
Defined.

(** ** A rate that is not a number *)

Lemma mul_nan_l (x : float) : (nan * x)%float = nan.
Proof.
  apply Prim2SF_inj. rewrite mul_spec.
  change (Prim2SF nan) with S754_nan.
  destruct (Prim2SF x) as [[|] | [|] | | [|] m e]; reflexivity.
Qed.

Lemma add_nan_l (x : float) : (nan + x)%float = nan.
Proof.
  apply Prim2SF_inj. rewrite add_spec.
  change (Prim2SF nan) with S754_nan.
  destruct (Prim2SF x) as [[|] | [|] | | [|] m e]; reflexivity.
Qed.

Lemma add_nan_r (x : float) : (x + nan)%float = nan.
Proof.
  apply Prim2SF_inj. rewrite add_spec.
  change (Prim2SF nan) with S754_nan.
  destruct (Prim2SF x) as [[|] | [|] | | [|] m e]; reflexivity.
Qed.

Lemma sub_nan_l (x : float) : (nan - x)%float = nan.
Proof.
  apply Prim2SF_inj. rewrite sub_spec.
  change (Prim2SF nan) with S754_nan.
  destruct (Prim2SF x) as [[|] | [|] | | [|] m e]; reflexivity.
Qed.

Lemma sub_nan_r (x : float) : (x - nan)%float = nan.
Proof.
  apply Prim2SF_inj. rewrite sub_spec.
  change (Prim2SF nan) with S754_nan.
  destruct (Prim2SF x) as [[|] | [|] | | [|] m e]; reflexivity.
Qed.

Lemma tax_columns_nan (p : policy) (r : pop_row) :
  nan_rate p ->
  total_tax_group (tax_columns p r) = nan
  /\ (float_of_Z (avg_income (tax_columns p r))
      - income_tax_per_person (tax_columns p r)
      - vat_tax_per_person (tax_columns p r)
      - lux_tax_per_person (tax_columns p r))%float = nan.
Proof.
  unfold tax_columns.
  cbn [total_tax_group income_tax_per_person vat_tax_per_person
       lux_tax_per_person base avg_income].
  intros [H | [H | H]]; rewrite H;
    repeat first [ rewrite mul_nan_l | rewrite add_nan_l | rewrite add_nan_r
                 | rewrite sub_nan_l | rewrite sub_nan_r ];
    split; reflexivity.
Qed.

(** X10: a NaN among the three rates raises nothing: under one of the three
    targets the run returns whenever the amount is one it can pay.  Whenever
    it returns, the NaN has not reached the budget: the tax of every bracket
    is NaN, the sum of the column skips them all, and the tax revenue is
    [0.0]; the balance is [0.0] minus the cost; the budget metric shows no
    percentage.  It has reached the brackets: the disposable income of every
    one of them and the inequality ratio are NaN. *)
Theorem nan_rate_zero_revenue (p : policy) :
  valid_target (ubi_target p) ->
  nan_rate p ->
  (amount_in_range p -> returns p)
  /\ (returns p ->
      exists r : outcome,
        simulate p = inr r
        /\ Forall (fun row : ubi_row => total_tax_group row = nan) (df r)
        /\ total_tax_revenue r = 0%float
        /\ budget_surplus r = (0 - float_of_Z (total_ubi_cost r))%float
        /\ Forall (fun row : ubi_row => disposable_income_per_person row = nan)
             (df r)
        /\ inequality_ratio r = nan
        /\ budget_delta r = None).
Proof.
  intros Hvalid Hnan.
  destruct (proj1 (rule_of_valid_target _) Hvalid) as [rule Hrule].
  split; [intros Hrange; exact (returns_in_range p rule Hrule Hrange) |].
  intros Hret.
  destruct (simulate_returns p rule Hrule Hret) as (v & Hratio & Hrun).
  assert (Htax : Forall (fun r0 : tax_row => total_tax_group r0 = nan)
                   (taxed_frame p)).
  { unfold taxed_frame. apply Forall_map.
    apply Forall_forall. intros r0 _. apply tax_columns_nan, Hnan. }
  assert (Hrev : series_sum (map total_tax_group (taxed_frame p)) = 0%float).
  { apply series_sum_all_nan, Forall_map, Htax. }
  assert (Hdisp : Forall (fun row : ubi_row =>
                            disposable_income_per_person row = nan)
                    (final_frame p rule)).
  { apply Forall_forall. intros row Hin.
    destruct (In_nth_error _ _ Hin) as [i Hnth].
    destruct (ubi_columns_nth _ _ _ _ _ _ Hnth) as (_ & _ & _ & _ & Hd).
    assert (Hrow : In (taxed row) (taxed_frame p)).
    { rewrite <- (final_frame_taxed p rule). apply in_map, Hin. }
    unfold taxed_frame in Hrow. apply in_map_iff in Hrow.
    destruct Hrow as (r0 & Heq & _).
    destruct (tax_columns_nan p r0 Hnan) as [_ Hbase].
    rewrite Hd. rewrite <- Heq. rewrite Hbase. apply add_nan_l. }
  assert (Hv : v = nan).
  { destruct (final_frame p rule) as [| low rest]; [discriminate Hratio |].
    inversion Hdisp as [| x l Hlow _]; subst.
    unfold ratio in Hratio. rewrite Hlow in Hratio.
    injection Hratio as <-. reflexivity. }
  eexists. split; [exact Hrun |].
  unfold budget_delta.
  cbn [total_tax_revenue budget_surplus total_ubi_cost df inequality_ratio].
  rewrite Hrev.
  split.
  { rewrite <- (final_frame_taxed p rule) in Htax.
    rewrite Forall_map in Htax. exact Htax. }
  repeat split; [exact Hdisp | exact Hv].
Qed.

Lemma nan_rate_zero_revenue_witness :
  exists r : outcome,
    simulate nan_vat_policy = inr r
    /\ Forall (fun row : ubi_row => total_tax_group row = nan) (df r)
    /\ total_tax_revenue r = 0%float
    /\ budget_surplus r = (0 - float_of_Z (total_ubi_cost r))%float
    /\ Forall (fun row : ubi_row => disposable_income_per_person row = nan)
         (df r)
    /\ inequality_ratio r = nan
    /\ budget_delta r = None.
Proof.
  destruct (nan_rate_zero_revenue nan_vat_policy) as [Hret Hrun];
    [left; reflexivity | left; reflexivity |].
  apply Hrun, Hret. reflexivity.
Defined.

(** ** The percentage of the budget metric *)

Lemma ltb_zero_nonneg (x : float) :
  nonneg x -> ((0 <? x)%float = false <-> (x =? 0)%float = true).
Proof.
  rewrite nonneg_spec, ltb_spec, FloatAxioms.eqb_spec.
  change (Prim2SF 0%float) with (S754_zero false).
  destruct (Prim2SF x) as [[|] | [|] | | [|] m e]; intros H;
    try discriminate H; split; intros H'; try reflexivity;
    discriminate H'.
Qed.

(** X11: for every input with one of the three targets and rates that are not
    below zero, the run returns whenever the amount is one it can pay; and
    whenever it returns, the budget metric shows no percentage exactly when
    the tax revenue equals zero, and otherwise shows the balance divided by
    the revenue, times 100: the revenue is never divided by when it is
    zero. *)
Theorem budget_delta_guard (p : policy) :
  valid_target (ubi_target p) ->
  rates_nonneg p ->
  (amount_in_range p -> returns p)
  /\ (returns p ->
      exists r : outcome,
        simulate p = inr r
        /\ (budget_delta r = None <-> (total_tax_revenue r =? 0)%float = true)
        /\ ((total_tax_revenue r =? 0)%float = false ->
            budget_delta r
            = Some (budget_surplus r / total_tax_revenue r * 100)%float)).
Proof.
  intros Hvalid Hn.
  destruct (proj1 (rule_of_valid_target _) Hvalid) as [rule Hrule].
  split; [intros Hrange; exact (returns_in_range p rule Hrule Hrange) |].
  intros Hret.
  destruct (taxes_nonneg_revenue p Hvalid Hret Hn) as (r & Hrun & Hrev).
  exists r. split; [exact Hrun |].
  pose proof (ltb_zero_nonneg _ Hrev) as Hguard.
  unfold budget_delta.
  destruct (0 <? total_tax_revenue r)%float.
  - split.
    + split; [discriminate |].
      intros H. apply Hguard in H. discriminate H.
    + reflexivity.
  - destruct Hguard as [Hz _]. rewrite (Hz eq_refl).
    split; [split; reflexivity | discriminate].
Qed.

Lemma budget_delta_guard_witness :
  exists r : outcome,
    simulate default_policy = inr r
    /\ (budget_delta r = None <-> (total_tax_revenue r =? 0)%float = true)
    /\ ((total_tax_revenue r =? 0)%float = false ->
        budget_delta r
        = Some (budget_surplus r / total_tax_revenue r * 100)%float).
Proof.
  destruct (budget_delta_guard default_policy) as [Hret Hrun];
    [left; reflexivity | repeat split |].
  apply Hrun, Hret. reflexivity.
Defined.

(** ** The loop over any table *)

Lemma int_outcomes (x : float) :
  (int x = inl ValueError <-> classify x = NaN)
  /\ (int x = inl OverflowError <-> classify x = PInf \/ classify x = NInf)
  /\ (forall e : error,
        int x = inl e -> e = ValueError \/ e = OverflowError)
  /\ (classify x <> NaN -> classify x <> PInf -> classify x <> NInf ->
      exists n : Z, int x = inr n).
Proof.
  unfold int. rewrite classify_spec. unfold SF64classify.
  destruct (Prim2SF x) as [[|] | [|] | | [|] m e];
    cbn [int_of_SF SFclassify];
    try destruct (Zpos (digits2_pos m) =? prec);
    (split; [split; intros H; try discriminate H; try reflexivity |]);
    (split; [split; [intros H; try discriminate H; auto
                    | intros [H | H]; try discriminate H; reflexivity] |]);
    (split; [intros err H; try discriminate H; injection H as <-; auto |]);
    intros H1 H2 H3; try (eexists; reflexivity); congruence.
Qed.

Lemma build_row_passes (g : Group.t) :
  build_row g
  = (group_pop <- int (scaled_share g) ;;
     income_as_float <- float_of_int (Group.avg_income g) ;;
     let '(basic_share, luxury_share) := consumption_shares (Group.name g) in
     ret {| group := Group.name g;
            group_pop := group_pop;
            avg_income := Group.avg_income g;
            mpc := Group.mpc g;
            basic_cons := (income_as_float * Group.mpc g * basic_share)%float;
            luxury_cons :=
              (income_as_float * Group.mpc g * luxury_share)%float |}).
Proof. reflexivity. Qed.

Lemma build_row_ok (g : Group.t) (row : pop_row) :
  build_row g = inr row -> row_of_group g row.
Proof.
  rewrite build_row_passes. unfold row_of_group.
  destruct (int (scaled_share g)) as [e | n]; [discriminate |].
  cbn [bind].
  destruct (float_of_int (Group.avg_income g)) as [e | x]; [discriminate |].
  cbn [bind]. destruct (consumption_shares (Group.name g)) as [b l].
  intros [= <-]. repeat split.
Qed.

Lemma build_row_fails (g : Group.t) (e : error) :
  build_row g = inl e ->
  int (scaled_share g) = inl e
  \/ (e = OverflowError /\ ~ income_in_range g).
Proof.
  rewrite build_row_passes. unfold income_in_range.
  destruct (int (scaled_share g)) as [e' | n];
    [intros [= <-]; left; reflexivity |].
  cbn [bind].
  destruct (float_of_int (Group.avg_income g)) as [e' | x] eqn:Hincome.
  - intros [= <-]. right.
    destruct (float_of_int_raises _ _ Hincome) as [Hout ->].
    split; [reflexivity |]. rewrite Hout. discriminate.
  - cbn [bind]. destruct (consumption_shares (Group.name g)) as [b l].
    discriminate.
Qed.

Lemma build_row_total (g : Group.t) :
  finite_share g -> income_in_range g ->
  exists row : pop_row, build_row g = inr row.
Proof.
  intros (H1 & H2 & H3) Hincome.
  destruct (int_outcomes (scaled_share g)) as (_ & _ & _ & Hok).
  destruct (Hok H1 H2 H3) as [n Hn].
  rewrite build_row_passes, Hn. cbn [bind].
  rewrite (float_of_int_in_range _ Hincome). cbn [bind].
  destruct (consumption_shares (Group.name g)) as [b l].
  eexists. reflexivity.
Qed.

(** X12: over any table of groups the loop either returns one row per group,
    in table order, each with the group's name, income and mpc and with
    [group_pop = int(TOTAL_POP * pop_share)]; or it stops on some group, with
    the exception of [int], [ValueError] where the product is NaN and
    [OverflowError] where it is infinite, or with the [OverflowError] of an
    income that is too large an [int] to be converted to [float].  It returns
    whenever every product is finite and every income is in the range of
    [float]. *)
Theorem build_rows_any_table (groups : list Group.t) :
  (forall rows : list pop_row,
     build_rows groups = inr rows -> Forall2 row_of_group groups rows)
  /\ (forall e : error,
        build_rows groups = inl e ->
        exists g : Group.t,
          In g groups
          /\ ((e = ValueError /\ classify (scaled_share g) = NaN)
              \/ (e = OverflowError
                  /\ (classify (scaled_share g) = PInf
                      \/ classify (scaled_share g) = NInf
                      \/ ~ income_in_range g))))
  /\ (Forall finite_share groups ->
      Forall income_in_range groups ->
      exists rows : list pop_row, build_rows groups = inr rows).
Proof.
  unfold build_rows. induction groups as [| g t (IHok & IHerr & IHtot)].
  - split; [intros rows [= <-]; constructor |].
    split; [intros e H; discriminate H |].
    intros _ _. exists []. reflexivity.
  - cbn [mapM].
    destruct (build_row g) as [e0 | row] eqn:Hrow; cbn [bind].
    + split; [intros rows H; discriminate H |].
      split.
      * intros e [= <-]. exists g. split; [now left |].
        apply build_row_fails in Hrow.
        destruct Hrow as [Hrow | [-> Hincome]]; [| right; auto].
        destruct (int_outcomes (scaled_share g)) as (Hv & Ho & Hkinds & _).
        destruct (Hkinds _ Hrow) as [-> | ->];
          [left; split; [reflexivity | apply Hv, Hrow] |].
        right. split; [reflexivity |].
        destruct (proj1 Ho Hrow); auto.
      * intros Hall Hinc. inversion Hall as [| x l Hg _]; subst.
        inversion Hinc as [| x l Hi _]; subst.
        destruct (build_row_total g Hg Hi) as [row Hrow'].
        rewrite Hrow in Hrow'. discriminate Hrow'.
    + destruct (mapM build_row t) as [e1 | rows'] eqn:Hrest; cbn [bind].
      * split; [intros rows H; discriminate H |].
        split.
        -- intros e [= <-]. destruct (IHerr e1 eq_refl) as (g' & Hin & Hk).
           exists g'. split; [now right | exact Hk].
        -- intros Hall Hinc. inversion Hall as [| x l _ Ht]; subst.
           inversion Hinc as [| x l _ Hit]; subst.
           destruct (IHtot Ht Hit) as [rows Hrows]. discriminate Hrows.
      * split.
        -- intros rows [= <-]. constructor;
             [apply build_row_ok, Hrow | apply IHok; reflexivity].
        -- split; [intros e H; discriminate H |].
           intros _ _. eexists. reflexivity.
Qed.

(** ** The split of consumption *)

(** X13: for every group name, the unknown ones of the [else] branch
    included, the basic and the luxury share add up to exactly 1.0, and the
    luxury share is above zero and below the basic share. *)
Theorem consumption_shares_split (name : string) :
  (fst (consumption_shares name) + snd (consumption_shares name))%float
  = 1%float
  /\ (0 <? snd (consumption_shares name))%float = true
  /\ (snd (consumption_shares name) <? fst (consumption_shares name))%float
     = true.
Proof.
  unfold consumption_shares.
  destruct (name =? "Low")%string; [repeat split |].
  destruct (name =? "Lower-Middle")%string; [repeat split |].
  destruct (name =? "Upper-Middle")%string; repeat split.
Qed.
